(** * GenerateStopPairs: transit lines, schedules and edge identifiers

    A shallow embedding of the core of
    [add-GTFS-to-a-network-dataset/scripts/GenerateStopPairs.py]
    (Python 2): the reference dictionaries ([RouteDict],
    [trip_routetype_dict], [frequencies_dict]) with the check for repeated
    trip identifiers, the per-trip conversion of stop times into
    stop-to-stop schedule rows ([Make_StopsTimes_Rows],
    [Make_Frequency_Rows], [Make_Rows_For_Trip]), the dictionary
    [linefeature_dict] keyed by the text ["start , end , route_type"], the
    route type written to the lines and to the [linefeatures] table, and the
    final [getSourceOID] update of the schedules table.

    Modelling choices.
    - The SQL tables are inputs: a table is the list of its rows, a query
      is the list it returns. The loading of the GTFS files, the stops and
      stop pairs feature classes and the geometry of the lines are outside
      the model.
    - Python dictionaries are finite maps with text keys; the global
      [linefeature_dict] is passed in and out of the functions that write
      to it.
    - A statement that can raise returns a [result]; loops are folds over
      the list they iterate on.
    - Stop times are whole seconds. The boundaries of a frequency window
      are SQLite reals, finite binary fractions, taken as rationals;
      [round] is exact on them. *)

From Stdlib Require Import ZArith QArith String Ascii List Lia.
From Stdlib Require Import DecimalString DecimalZ.
From stdpp Require Import base option list gmap strings.

Local Open Scope string_scope.
Local Open Scope list_scope.
Local Open Scope Z_scope.

(** ** Python values, exceptions and text formatting *)

(** The exceptions the modelled statements can raise. *)
Inductive exn := CustomError | KeyError | ValueError | IndexError.

(** A statement either finishes with a value or raises. *)
Inductive result (A : Type) : Type :=
| Ok (a : A)
| Raise (e : exn).
Arguments Ok {A} a.
Arguments Raise {A} e.

Definition bind {A B} (m : result A) (f : A → result B) : result B :=
  match m with
  | Ok a => f a
  | Raise e => Raise e
  end.

Notation "'let!' x ':=' m 'in' k" := (bind m (fun x => k))
  (at level 10, x name, m at level 100, k at level 200, only parsing).

(** [d[k]] on a Python dict: the value, or [KeyError]. *)
Definition getitem {V} (d : gmap string V) (k : string) : result V :=
  match d !! k with
  | Some v => Ok v
  | None => Raise KeyError
  end.

(** A [for] loop whose body may raise: the state after the last iteration,
    or the first exception. *)
Fixpoint for_each {S A} (body : S → A → result S) (s : S) (l : list A)
  : result S :=
  match l with
  | [] => Ok s
  | x :: l' => let! s' := body s x in for_each body s' l'
  end.

(** A function applied to each element in turn, up to the first
    exception. *)
Fixpoint map_each {A B} (f : A → result B) (l : list A) : result (list B) :=
  match l with
  | [] => Ok []
  | x :: l' => let! y := f x in let! ys := map_each f l' in Ok (y :: ys)
  end.

(** A value read from a column without a fixed type ([route_type]): an
    integer or a text. *)
Inductive sqlval :=
| SInt (z : Z)
| SText (s : string).

(** [str(z)] for an integer. *)
Definition str_of_Z (z : Z) : string := NilZero.string_of_int (Z.to_int z).

(** ["%s" % v]. *)
Definition fmt_s (v : sqlval) : string :=
  match v with
  | SInt z => str_of_Z z
  | SText s => s
  end.

(** ** Rows *)

(** One row of the [stop_times] query of a trip:
    [(stop_id, arrival_time, departure_time)], that is [st[0]], [st[1]],
    [st[2]]. *)
Record stop_time := StopTime {
  stop_id : string;
  arrival_time : Z;
  departure_time : Z
}.

(** A schedule row [(SourceOIDkey, start_time, end_time, trip_id)]. *)
Record schedule_row := ScheduleRow {
  sched_key : string;
  sched_start : Z;
  sched_end : Z;
  sched_trip : string
}.

(** A time window of [frequencies_dict]:
    [[start_time, end_time, headway_secs]]. *)
Record window := Window {
  start_timeofday : Q;
  end_timeofday : Q;
  headway : Z
}.

(** A value of [linefeature_dict]: [True] while the lines are collected,
    the ObjectID of the line once the lines exist. *)
Inductive lfval :=
| LfTrue
| LfOID (oid : Z).

(** ["%s , %s , %s" % (start_stop, end_stop, route_type)]. *)
Definition SourceOIDkey_of (start_stop end_stop : string) (route_type : sqlval)
  : string :=
  start_stop +:+ " , " +:+ end_stop +:+ " , " +:+ fmt_s route_type.

(** ** Built-ins: [round], [int], [range] *)

(** [int(round(x, 0))]: Python 2 rounds to the nearest integer, a tie away
    from zero. *)
Definition int_round (x : Q) : Z :=
  let n := Qnum x in
  let d := Z.pos (Qden x) in
  if 0 <=? n then (2 * n + d) / (2 * d) else - ((2 * (- n) + d) / (2 * d)).

(** The values [i, i + step, ...] below [stop], at most [fuel] of them. *)
Fixpoint range_up (fuel : nat) (i stop step : Z) : list Z :=
  match fuel with
  | O => []
  | S fuel' =>
      if i <? stop then i :: range_up fuel' (i + step) stop step else []
  end.

(** The values [i, i + step, ...] above [stop] (negative [step]). *)
Fixpoint range_down (fuel : nat) (i stop step : Z) : list Z :=
  match fuel with
  | O => []
  | S fuel' =>
      if stop <? i then i :: range_down fuel' (i + step) stop step else []
  end.

(** The list [range(start, stop, step)] builds for a step that is not
    zero. With a step of at least one in absolute value, [|stop - start|]
    values are enough. *)
Definition range_list (start stop step : Z) : list Z :=
  if 0 <? step then range_up (Z.to_nat (stop - start)) start stop step
  else range_down (Z.to_nat (start - stop)) start stop step.

(** [range(start, stop, step)]; a zero step is a [ValueError]. *)
Definition py_range (start stop step : Z) : result (list Z) :=
  if step =? 0 then Raise ValueError
  else Ok (range_list start stop step).

(** ** Stop times to schedule rows *)

(** The variables of the loop over [stop_times[1:]], with the global
    [linefeature_dict]. *)
Record loop_state := LoopState {
  previous_stop : string;
  start_time : Z;
  stop_times_current_trip : list schedule_row;
  linefeature_dict : gmap string lfval
}.

Section Expansion.

(** The dictionaries built before the schedules, and the [stop_times]
    query of a trip (ordered by [stop_sequence]). *)
Variable trip_routetype_dict : gmap string sqlval.
Variable frequencies_dict : gmap string (list window).
Variable stoptimefetch : string → list stop_time.

(** The body of the loop of [Make_StopsTimes_Rows]. *)
Definition StopsTimes_body (route_type : sqlval) (trip_id : string)
    (s : loop_state) (st : stop_time) : loop_state :=
  let start_stop := previous_stop s in
  let end_stop := stop_id st in
  let end_time := arrival_time st in
  let SourceOIDkey := SourceOIDkey_of start_stop end_stop route_type in
  {| previous_stop := stop_id st;
     start_time := departure_time st;
     stop_times_current_trip :=
       stop_times_current_trip s
         ++ [ScheduleRow SourceOIDkey (start_time s) end_time trip_id];
     linefeature_dict := <[SourceOIDkey := LfTrue]> (linefeature_dict s) |}.

Definition Make_StopsTimes_Rows (trip_id : string)
    (stop_times : list stop_time) (lfd : gmap string lfval)
  : result (list schedule_row * gmap string lfval) :=
  if (length stop_times <? 2)%nat then Ok ([], lfd)
  else
    let! route_type := getitem trip_routetype_dict trip_id in
    match stop_times with
    | [] => Raise IndexError
    | st0 :: rest =>
        let s0 := {| previous_stop := stop_id st0;
                     start_time := departure_time st0;
                     stop_times_current_trip := [];
                     linefeature_dict := lfd |} in
        let s := foldl (StopsTimes_body route_type trip_id) s0 rest in
        Ok (stop_times_current_trip s, linefeature_dict s)
    end.

(** The rows of one time window for one segment: the loop over
    [range(int(round(start_timeofday, 0)), int(round(end_timeofday, 0)),
    headway)]. *)
Definition window_rows (SourceOIDkey trip_id : string)
    (start_time_along_trip end_time_along_trip : Z) (w : window)
  : result (list schedule_row) :=
  let! ticks := py_range (int_round (start_timeofday w))
                   (int_round (end_timeofday w)) (headway w) in
  Ok ((λ i, ScheduleRow SourceOIDkey (i + start_time_along_trip)
                        (i + end_time_along_trip) trip_id) <$> ticks).

(** The body of the loop of [Make_Frequency_Rows]. *)
Definition Frequency_body (route_type : sqlval) (trip_id : string)
    (first_trip_initial_start_time : Z)
    (s : loop_state) (st : stop_time) : result loop_state :=
  let start_stop := previous_stop s in
  let end_stop := stop_id st in
  let start_time_along_trip := start_time s - first_trip_initial_start_time in
  let end_time_along_trip := arrival_time st - first_trip_initial_start_time in
  let SourceOIDkey := SourceOIDkey_of start_stop end_stop route_type in
  let lfd := <[SourceOIDkey := LfTrue]> (linefeature_dict s) in
  let! windows := getitem frequencies_dict trip_id in
  let! rows := for_each
           (λ acc w,
              let! new := window_rows SourceOIDkey trip_id
                            start_time_along_trip end_time_along_trip w in
              Ok (acc ++ new))
           (stop_times_current_trip s) windows in
  Ok {| previous_stop := stop_id st;
        start_time := departure_time st;
        stop_times_current_trip := rows;
        linefeature_dict := lfd |}.

Definition Make_Frequency_Rows (trip_id : string)
    (stop_times : list stop_time) (lfd : gmap string lfval)
  : result (list schedule_row * gmap string lfval) :=
  if (length stop_times <? 2)%nat then Ok ([], lfd)
  else
    let! route_type := getitem trip_routetype_dict trip_id in
    match stop_times with
    | [] => Raise IndexError
    | st0 :: rest =>
        let s0 := {| previous_stop := stop_id st0;
                     start_time := departure_time st0;
                     stop_times_current_trip := [];
                     linefeature_dict := lfd |} in
        let! s := for_each (Frequency_body route_type trip_id (departure_time st0))
               s0 rest in
        Ok (stop_times_current_trip s, linefeature_dict s)
    end.

Definition Make_Rows_For_Trip (trip_id : string) (lfd : gmap string lfval)
  : result (list schedule_row * gmap string lfval) :=
  let stop_time_data := stoptimefetch trip_id in
  if decide (is_Some (frequencies_dict !! trip_id))
  then Make_Frequency_Rows trip_id stop_time_data lfd
  else Make_StopsTimes_Rows trip_id stop_time_data lfd.

End Expansion.

(** ** The reference dictionaries *)

(** What the tool reports through [arcpy.AddError] and
    [arcpy.AddWarning], in order. *)
Inductive message :=
| AddError (text : string)
| AddWarning (text : string).

(** A row of [frequencies]:
    [(trip_id, start_time, end_time, headway_secs)]. *)
Record freq_row := FreqRow {
  freq_trip_id : string;
  freq_start_time : Q;
  freq_end_time : Q;
  freq_headway_secs : Z
}.

(** The tables the SQL queries read. [stop_times_of t] is the result of the
    [stop_times] query for trip [t], ordered by [stop_sequence]. *)
Record tables := Tables {
  routes : list (string * sqlval);        (* (route_id, route_type) *)
  trips : list (string * string);         (* (trip_id, route_id) *)
  frequencies : list freq_row;
  stop_times_of : string → list stop_time
}.

(** [RouteDict[route[0]] = route[1]] for every route. *)
Definition make_RouteDict (routes : list (string * sqlval))
  : gmap string sqlval :=
  foldl (λ d route, <[route.1 := route.2]> d) ∅ routes.

(** The number of rows of [trips] with this [trip_id]. *)
Definition count_trip_id (trips : list (string * string)) (t : string) : nat :=
  length (filter (λ id, id = t) (trips.*1)).

(** [SELECT trip_id, count( * ) from trips group by trip_id
    having count( * ) > 1]: one row per repeated [trip_id]. *)
Definition tripDuplicateFetch (trips : list (string * string))
  : list (string * nat) :=
  filter (λ g, (1 < g.2)%nat)
         ((λ t, (t, count_trip_id trips t)) <$> remove_dups (trips.*1)).

Definition duplicate_error (tripdup : string * nat) : message :=
  AddError ("There are " +:+ str_of_Z (Z.of_nat tripdup.2)
            +:+ " instances of the trip_id value '" +:+ tripdup.1 +:+ "'.").

Definition invalid_trips_error : message :=
  AddError "Your GTFS trips table is invalid.  It contains multiple trips with the same trip_id.".

Definition unknown_route_warning (trip : string * string) : message :=
  AddWarning ("Trip_id " +:+ trip.1 +:+ " in trips.txt has a route_id value, "
              +:+ trip.2 +:+ ", which does not appear in your routes.txt file.  This trip can still be used for analysis, but it might be an indication of a problem with your GTFS dataset.").

(** One trip of the loop that fills [trip_routetype_dict]: the route type
    of its route, or 100 and a warning when the route is unknown. *)
Definition trip_routetype_body (RouteDict : gmap string sqlval)
    (acc : gmap string sqlval * list message) (trip : string * string)
  : gmap string sqlval * list message :=
  match RouteDict !! trip.2 with
  | Some route_type => (<[trip.1 := route_type]> acc.1, acc.2)
  | None => (<[trip.1 := SInt 100]> acc.1,
             acc.2 ++ [unknown_route_warning trip])
  end.

Definition make_trip_routetype_dict (RouteDict : gmap string sqlval)
    (trips : list (string * string)) (log : list message)
  : gmap string sqlval * list message :=
  foldl (trip_routetype_body RouteDict) (∅, log) trips.

Definition zero_headway_warning (trip_id : string) : message :=
  AddWarning ("Trip_id " +:+ trip_id +:+ " in your frequencies.txt file has a headway of 0 seconds. This is invalid, so trips with this id will not be included in your network.").

(** One row of the loop that fills [frequencies_dict]: a zero headway is
    reported and skipped ([continue]), any other row is appended to the
    list of its trip ([setdefault(trip_id, []).append(trip_data)]). *)
Definition frequencies_body
    (acc : gmap string (list window) * list message) (freq : freq_row)
  : gmap string (list window) * list message :=
  let trip_id := freq_trip_id freq in
  if freq_headway_secs freq =? 0
  then (acc.1, acc.2 ++ [zero_headway_warning trip_id])
  else
    let trip_data := Window (freq_start_time freq) (freq_end_time freq)
                            (freq_headway_secs freq) in
    (<[trip_id := default [] (acc.1 !! trip_id) ++ [trip_data]]> acc.1, acc.2).

Definition make_frequencies_dict (frequencies : list freq_row)
    (log : list message) : gmap string (list window) * list message :=
  foldl frequencies_body (∅, log) frequencies.

(** ** The schedules table *)

(** A row of the [schedules] table: the inserted columns and the
    [SourceOID] column, NULL until the final update. *)
Record schedules_record := SchedulesRecord {
  sched_row : schedule_row;
  SourceOID : option Z
}.

(** [Insert_Schedules]. *)
Definition Insert_Schedules (rows : list schedule_row)
  : list schedules_record :=
  (λ r, SchedulesRecord r None) <$> rows.

(** [itertools.chain.from_iterable(itertools.imap(Make_Rows_For_Trip,
    trip_ids))], with [linefeature_dict] starting at [lfd]. *)
Definition chain_rows (trip_routetype_dict : gmap string sqlval)
    (frequencies_dict : gmap string (list window))
    (stoptimefetch : string → list stop_time)
    (trip_ids : list string) (lfd : gmap string lfval)
  : result (list schedule_row * gmap string lfval) :=
  for_each
    (λ acc trip_id,
       let! r := Make_Rows_For_Trip trip_routetype_dict frequencies_dict
                   stoptimefetch trip_id acc.2 in
       Ok (acc.1 ++ r.1, r.2))
    ([], lfd) trip_ids.

(** What a run has produced when it stops: the messages, the rows of
    [schedules] and [linefeature_dict]. *)
Record produced := Produced {
  log : list message;
  schedules : list schedules_record;
  lines : gmap string lfval
}.

Definition failed_error : message :=
  AddError "Failed to generate transit lines and stops.".

(** The run from the route dictionary to the committed schedules: the
    exception that stopped it, if any, and what it produced. A
    [CustomError] is reported by the handler at the end of the script. *)
Definition generate_schedules (db : tables) : option exn * produced :=
  let RouteDict := make_RouteDict (routes db) in
  let tripdupslist := tripDuplicateFetch (trips db) in
  match tripdupslist with
  | _ :: _ =>
      (Some CustomError,
       {| log := [invalid_trips_error] ++ (duplicate_error <$> tripdupslist)
                   ++ [failed_error];
          schedules := [];
          lines := ∅ |})
  | [] =>
      let '(trip_routetype_dict, log1) :=
        make_trip_routetype_dict RouteDict (trips db) [] in
      let '(frequencies_dict, log2) :=
        make_frequencies_dict (frequencies db) log1 in
      match chain_rows trip_routetype_dict frequencies_dict (stop_times_of db)
              (map_to_list trip_routetype_dict).*1 ∅ with
      | Ok (rows, lfd) =>
          (None,
           {| log := log2; schedules := Insert_Schedules rows; lines := lfd |})
      | Raise e =>
          (Some e, {| log := log2 ++ [failed_error]; schedules := []; lines := ∅ |})
      end
  end.

(** ** Line features: splitting the key and reading the route type *)

(** [s.split(sep)] by one left-to-right scan: [piece] is the piece read so
    far, [skip] counts the characters of a separator still to pass. *)
Fixpoint split_scan (sep : string) (skip : nat) (piece : string) (s : string)
  : list string :=
  match s with
  | EmptyString => [piece]
  | String c s' =>
      match skip with
      | S n => split_scan sep n piece s'
      | O =>
          if String.prefix sep s
          then piece :: split_scan sep (String.length sep - 1) EmptyString s'
          else split_scan sep 0 (piece +:+ String c EmptyString) s'
      end
  end.

(** [key.split(" , ")]. *)
Definition split_key (key : string) : list string :=
  split_scan " , " 0 EmptyString key.

(** White space as [int] skips it around a number. *)
Definition is_space (c : ascii) : bool :=
  match c with
  | " " | "009" | "010" | "011" | "012" | "013" => true
  | _ => false
  end%char.

Fixpoint lstrip (s : string) : string :=
  match s with
  | String c s' => if is_space c then lstrip s' else s
  | EmptyString => EmptyString
  end.

Fixpoint rstrip (s : string) : string :=
  match s with
  | EmptyString => EmptyString
  | String c s' =>
      match rstrip s' with
      | EmptyString => if is_space c then EmptyString else String c EmptyString
      | r => String c r
      end
  end.

(** The number a text denotes for [int]: a possibly signed run of decimal
    digits, possibly surrounded by white space; [None] is a
    [ValueError]. *)
Definition parse_int (s : string) : option Z :=
  let digits r := Z.of_uint <$> NilZero.uint_of_string r in
  match rstrip (lstrip s) with
  | String "-" r => Z.opp <$> digits r
  | String "+" r => digits r
  | t => digits t
  end.

(** The Python objects a route type read back from a key can be. [int]
    gives a [long] when the number does not fit a machine integer. *)
Inductive pyval :=
| PyInt (z : Z)
| PyLong (z : Z)
| PyStr (s : string).

(** [unicode(v)]. *)
Definition unicode_of (v : pyval) : string :=
  match v with
  | PyInt z | PyLong z => str_of_Z z
  | PyStr s => s
  end.

(** [route_type_dict]. *)
Definition route_type_dict : gmap Z string :=
  list_to_map
    [(0, "Tram, Streetcar, Light rail"); (1, "Subway, Metro"); (2, "Rail");
     (3, "Bus"); (4, "Ferry"); (5, "Cable car");
     (6, "Gondola, Suspended cable car"); (7, "Funicular")].

(** [l[i]] on a Python list. *)
Definition list_getitem {A} (l : list A) (i : nat) : result A :=
  match l !! i with
  | Some x => Ok x
  | None => Raise IndexError
  end.

(** A row of the lines feature class, as the update cursor [cur4] sees
    it: [(pair_id, route_type, route_type_text, OID@)]. *)
Record line_row := LineRow {
  pair_id : string;
  line_route_type : option Z;
  line_route_type_text : option string;
  line_OID : Z
}.

(** The machine integers, from [-sys.maxint - 1] to [sys.maxint]. *)
Definition fits_int (maxint z : Z) : bool :=
  (- maxint - 1 <=? z) && (z <=? maxint).

Section Lines.

(** [sys.maxint]. *)
Variable maxint : Z.

(** [int(s)] on a text. *)
Definition py_int (s : string) : result pyval :=
  match parse_int s with
  | Some z =>
      if fits_int maxint z then Ok (PyInt z) else Ok (PyLong z)
  | None => Raise ValueError
  end.

(** The route type read from a key by the loop over [cur4]: the integer
    when [int] succeeds, else the text itself. *)
Definition line_route_type_of (pair_id_list : list string) : result pyval :=
  let! raw := list_getitem pair_id_list 2 in
  match py_int raw with
  | Ok v => Ok v
  | Raise ValueError => Ok (PyStr raw)
  | Raise e => Raise e
  end.

(** The body of the loop over [cur4]: the updated row and
    [linefeature_dict]. *)
Definition cur4_body (lfd : gmap string lfval) (row : line_row)
  : result (line_row * gmap string lfval) :=
  let pair_id_list := split_key (pair_id row) in
  let! route_type := line_route_type_of pair_id_list in
  let lfd' := <[pair_id row := LfOID (line_OID row)]> lfd in
  let route_type_text :=
    match route_type with
    | PyInt z | PyLong z =>
        match route_type_dict !! z with
        | Some text => text
        | None => "Other / Type not specified (" +:+ unicode_of route_type +:+ ")"
        end
    | PyStr _ => "Other / Type not specified (" +:+ unicode_of route_type +:+ ")"
    end in
  let row1 :=
    match route_type with
    | PyInt z => Some z
    | _ => None
    end in
  Ok ({| pair_id := pair_id row;
         line_route_type := row1;
         line_route_type_text := Some route_type_text;
         line_OID := line_OID row |}, lfd').

(** A row of the [linefeatures] table:
    [(SourceOID, from_stop, to_stop, route_type)]. *)
Record linefeatures_row := LinefeaturesRow {
  lf_SourceOID : lfval;
  lf_from_stop : string;
  lf_to_stop : string;
  lf_route_type : pyval
}.

Definition retrieve_linefeatures_info (lfd : gmap string lfval)
    (in_key : string) : result linefeatures_row :=
  let! SourceOID := getitem lfd in_key in
  let pair_id_list := split_key in_key in
  let! from_stop := list_getitem pair_id_list 0 in
  let! to_stop := list_getitem pair_id_list 1 in
  let! raw := list_getitem pair_id_list 2 in
  let! route_type :=
    match py_int raw with
    | Ok v => Ok v
    | Raise ValueError => Ok (PyStr "NULL")
    | Raise e => Raise e
    end in
  Ok (LinefeaturesRow SourceOID from_stop to_stop route_type).

End Lines.

(** ** The ObjectIDs of the lines in the schedules table *)

(** The integer SQLite stores for a value of [linefeature_dict]. *)
Definition sql_integer (v : lfval) : Z :=
  match v with
  | LfTrue => 1
  | LfOID oid => oid
  end.

(** [lambda v: linefeature_dict[v] if v in linefeature_dict else -1]. *)
Definition getSourceOID (lfd : gmap string lfval) (v : string) : result Z :=
  if decide (is_Some (lfd !! v))
  then let! x := getitem lfd v in Ok (sql_integer x)
  else Ok (-1).

(** [UPDATE schedules SET SourceOID = getSourceOID(SourceOIDKey)]: every
    row of the table gets the value the function returns for its key; an
    exception in the function stops the statement. *)
Definition update_SourceOID (lfd : gmap string lfval)
    (schedules : list schedules_record) : result (list schedules_record) :=
  map_each
    (λ r, let! oid := getSourceOID lfd (sched_key (sched_row r)) in
          Ok {| sched_row := sched_row r; SourceOID := Some oid |})
    schedules.

(** ** The segments of a trip

    The description the loops are compared with: the consecutive pairs of
    stop visits, each with the departure of its first visit and the
    arrival at its second. *)

Record segment := Segment {
  seg_from : string;
  seg_to : string;
  seg_start : Z;
  seg_end : Z
}.

(** The segments that follow a visit of stop [from] left at [start]. *)
Fixpoint segments_from (from : string) (start : Z) (rest : list stop_time)
  : list segment :=
  match rest with
  | [] => []
  | st :: rest' =>
      Segment from (stop_id st) start (arrival_time st)
        :: segments_from (stop_id st) (departure_time st) rest'
  end.

Definition trip_segments (stop_times : list stop_time) : list segment :=
  match stop_times with
  | [] => []
  | st0 :: rest => segments_from (stop_id st0) (departure_time st0) rest
  end.

Definition segment_key (route_type : sqlval) (g : segment) : string :=
  SourceOIDkey_of (seg_from g) (seg_to g) route_type.

(** The row of a segment of a trip without frequencies. *)
Definition static_row (route_type : sqlval) (trip_id : string) (g : segment)
  : schedule_row :=
  ScheduleRow (segment_key route_type g) (seg_start g) (seg_end g) trip_id.

(** The start times of the trip in a window. *)
Definition window_ticks (w : window) : list Z :=
  range_list (int_round (start_timeofday w)) (int_round (end_timeofday w))
             (headway w).

(** The rows of a segment of a trip with frequencies: one per window and
    start time, at the segment's times relative to [first], the first
    departure of the trip. *)
Definition frequency_rows (route_type : sqlval) (trip_id : string)
    (first : Z) (windows : list window) (g : segment) : list schedule_row :=
  w ← windows;
  (λ i, ScheduleRow (segment_key route_type g) (i + (seg_start g - first))
                    (i + (seg_end g - first)) trip_id) <$> window_ticks w.

(** The first departure of a trip. *)
Definition first_departure (stop_times : list stop_time) : Z :=
  match stop_times with
  | [] => 0
  | st0 :: _ => departure_time st0
  end.

(** [linefeature_dict[key] = True] for each key in turn. *)
Definition register (keys : list string) (lfd : gmap string lfval)
  : gmap string lfval :=
  foldl (λ d key, <[key := LfTrue]> d) lfd keys.

(** The state of the loop of [Make_StopsTimes_Rows] after [n]
    iterations. *)
Definition StopsTimes_state (route_type : sqlval) (trip_id : string)
    (lfd : gmap string lfval) (stop_times : list stop_time) (n : nat)
  : option loop_state :=
  match stop_times with
  | [] => None
  | st0 :: rest =>
      Some (foldl (StopsTimes_body route_type trip_id)
                  {| previous_stop := stop_id st0;
                     start_time := departure_time st0;
                     stop_times_current_trip := [];
                     linefeature_dict := lfd |}
                  (take n rest))
  end.


(** The rows and the keys of all segments of a trip, by the dictionaries:
    frequency rows when the trip is in [frequencies_dict], one row per
    segment otherwise. *)
Definition trip_rows (trip_routetype_dict : gmap string sqlval)
    (frequencies_dict : gmap string (list window))
    (stoptimefetch : string → list stop_time) (trip_id : string)
  : list schedule_row :=
  let route_type := default (SInt 100) (trip_routetype_dict !! trip_id) in
  let stop_times := stoptimefetch trip_id in
  match frequencies_dict !! trip_id with
  | Some windows =>
      g ← trip_segments stop_times;
      frequency_rows route_type trip_id (first_departure stop_times) windows g
  | None => static_row route_type trip_id <$> trip_segments stop_times
  end.

Definition trip_keys (trip_routetype_dict : gmap string sqlval)
    (stoptimefetch : string → list stop_time) (trip_id : string)
  : list string :=
  segment_key (default (SInt 100) (trip_routetype_dict !! trip_id))
    <$> trip_segments (stoptimefetch trip_id).

(** No window of the dictionary has a zero headway. *)
Definition headways_nonzero (frequencies_dict : gmap string (list window))
  : Prop :=
  ∀ trip_id windows, frequencies_dict !! trip_id = Some windows →
    Forall (λ w, headway w ≠ 0) windows.

(** The windows of a trip in the [frequencies] table, as the loop keeps
    them: the rows of the trip with a headway other than zero, in table
    order. *)
Definition window_of (freq : freq_row) : window :=
  Window (freq_start_time freq) (freq_end_time freq) (freq_headway_secs freq).

Definition trip_windows (frequencies : list freq_row) (trip_id : string)
  : list window :=
  window_of
    <$> filter (λ f, freq_trip_id f = trip_id ∧ freq_headway_secs f ≠ 0)
          frequencies.

(** A dictionary entry for a list: none when the list is empty. *)
Definition entry_of {A} (l : list A) : option (list A) :=
  match l with
  | [] => None
  | _ => Some l
  end.

(** The dictionaries of a run. *)
Definition trip_routetype_dict_of (db : tables) : gmap string sqlval :=
  (make_trip_routetype_dict (make_RouteDict (routes db)) (trips db) []).1.

Definition frequencies_dict_of (db : tables) : gmap string (list window) :=
  (make_frequencies_dict (frequencies db) []).1.

(** [trip_routetype_dict.keys()] of a run. *)
Definition trip_ids_of (db : tables) : list string :=
  (map_to_list (trip_routetype_dict_of db)).*1.

(** ** Example data *)

Definition demo_stop_times : list stop_time :=
  [StopTime "A" 0 0; StopTime "B" 5 10; StopTime "C" 15 15].

Definition demo_pair : list stop_time :=
  [StopTime "A" 0 0; StopTime "B" 5 5].

(** A text without a comma. *)
Fixpoint comma_free (s : string) : bool :=
  match s with
  | EmptyString => true
  | String c s' => negb (Ascii.eqb c ",") && comma_free s'
  end.

(** The route type of a trip in a run. *)
Definition trip_route_type (db : tables) (trip_id : string) : sqlval :=
  default (SInt 100) (trip_routetype_dict_of db !! trip_id).

(** Two trips over stops whose identifiers contain the separator of the
    keys. *)
Definition collide_db : tables :=
  {| routes := [("R", SInt 3)];
     trips := [("T1", "R"); ("T2", "R")];
     frequencies := [];
     stop_times_of := λ t,
       if String.eqb t "T1"
       then [StopTime "A , B" 0 0; StopTime "C" 5 5]
       else [StopTime "A" 0 0; StopTime "B , C" 5 5] |}.

(** A trip with frequencies whose only window is empty. *)
Definition empty_window_db : tables :=
  {| routes := [("R", SInt 3)];
     trips := [("T", "R")];
     frequencies := [FreqRow "T" 100 100 600];
     stop_times_of := λ _, demo_pair |}.

(** A trips table that lists trip T twice. *)
Definition duplicate_db : tables :=
  {| routes := [("R", SInt 3)];
     trips := [("T", "R"); ("U", "R"); ("T", "R")];
     frequencies := [];
     stop_times_of := λ _, demo_pair |}.

(** The tables without the rows of [frequencies] that have a zero
    headway. *)
Definition drop_zero_headways (db : tables) : tables :=
  {| routes := routes db;
     trips := trips db;
     frequencies := filter (λ f, freq_headway_secs f ≠ 0) (frequencies db);
     stop_times_of := stop_times_of db |}.

(** A trip whose windows have a zero headway, one of two or the only
    one. *)
Definition zero_headway_db : tables :=
  {| routes := [("R", SInt 3)];
     trips := [("T", "R"); ("U", "R")];
     frequencies := [FreqRow "T" 0 1200 0; FreqRow "T" 0 1200 600;
                     FreqRow "U" 0 1200 0];
     stop_times_of := λ _, demo_stop_times |}.

(** A decimal digit, and a text of decimal digits. *)
Definition is_digit (c : ascii) : bool :=
  match c with
  | "0" | "1" | "2" | "3" | "4" | "5" | "6" | "7" | "8" | "9" => true
  | _ => false
  end%char.

Fixpoint digits_only (s : string) : bool :=
  match s with
  | EmptyString => true
  | String c s' => is_digit c && digits_only s'
  end.

(** A trip of a route that is not in the routes table. *)
Definition unknown_route_db : tables :=
  {| routes := [];
     trips := [("T", "R")];
     frequencies := [];
     stop_times_of := λ _, demo_pair |}.

(** ** Further descriptions *)

(** A row moved in time by [d] seconds. *)
Definition shift_row (d : Z) (r : schedule_row) : schedule_row :=
  ScheduleRow (sched_key r) (sched_start r + d) (sched_end r + d)
              (sched_trip r).

(** A window with a zero headway is in the list. *)
Definition has_zero_headway (windows : list window) : bool :=
  existsb (λ w, headway w =? 0) windows.

(** ** Stop pairs, lines and the rest of the run

    The geometry of a stop is whatever the stops feature class holds for
    it; [PointsToLine] and the lengths and ObjectIDs of its lines are
    inputs. *)

(** [del d[k]]: a [KeyError] when the key is not there. *)
Definition delitem {V} (d : gmap string V) (k : string)
  : result (gmap string V) :=
  match d !! k with
  | Some _ => Ok (delete k d)
  | None => Raise KeyError
  end.

(** A row of the stop pairs feature class:
    [(SHAPE@, stop_id, pair_id, sequence)]. *)
Record pair_point (geometry : Type) := PairPoint {
  pp_shape : geometry;
  pp_stop_id : string;
  pp_pair_id : string;
  pp_sequence : Z
}.
Arguments PairPoint {geometry} _ _ _ _.
Arguments pp_shape {geometry} _.
Arguments pp_stop_id {geometry} _.
Arguments pp_pair_id {geometry} _.
Arguments pp_sequence {geometry} _.

(** The insert cursor and the two lists of the loop over
    [linefeature_dict]. *)
Record pairs_state (geometry : Type) := PairsState {
  pair_points : list (pair_point geometry);
  badStops : list string;
  badkeys : list string
}.
Arguments PairsState {geometry} _ _ _.
Arguments pair_points {geometry} _.
Arguments badStops {geometry} _.
Arguments badkeys {geometry} _.

(** A line made by [PointsToLine]: its [pair_id], [Shape_Length] and
    ObjectID. *)
Record line_feature := LineFeature {
  ln_pair_id : string;
  ln_Shape_Length : Q;
  ln_OID : Z
}.

(** ["Shape_Length" = 0]. *)
Definition zero_length (line : line_feature) : Prop :=
  Qnum (ln_Shape_Length line) = 0.

#[global] Instance zero_length_dec line : Decision (zero_length line).
Proof. unfold zero_length. apply _. Defined.

Section StopPairs.

Variable geometry : Type.

(** [stoplatlon_dict], and [unicode] of a list of stop identifiers. *)
Variable stoplatlon_dict : gmap string geometry.
Variable unicode_list : list string → string.

(** The body of the loop over the keys of [linefeature_dict]: a key whose
    first stop, or else whose second stop, is not in [stoplatlon_dict] goes
    to [badkeys] with that stop in [badStops]; any other key gets its two
    points. *)
Definition stop_pairs_body (s : pairs_state geometry) (SourceOIDkey : string)
  : result (pairs_state geometry) :=
  let stopPair := split_key SourceOIDkey in
  let! stop1 := list_getitem stopPair 0 in
  match stoplatlon_dict !! stop1 with
  | None =>
      Ok {| pair_points := pair_points s;
            badStops := badStops s ++ [stop1];
            badkeys := badkeys s ++ [SourceOIDkey] |}
  | Some stop1_geom =>
      let! stop2 := list_getitem stopPair 1 in
      match stoplatlon_dict !! stop2 with
      | None =>
          Ok {| pair_points := pair_points s;
                badStops := badStops s ++ [stop2];
                badkeys := badkeys s ++ [SourceOIDkey] |}
      | Some stop2_geom =>
          Ok {| pair_points :=
                  pair_points s
                    ++ [PairPoint stop1_geom stop1 SourceOIDkey 1;
                        PairPoint stop2_geom stop2 SourceOIDkey 2];
                badStops := badStops s;
                badkeys := badkeys s |}
      end
  end.

Definition missing_stops_warning (badStops : list string) : message :=
  AddWarning ("Your stop_times.txt lists times for the following stops which are not included in your stops.txt file. Schedule information for these stops will be ignored. "
              +:+ unicode_list badStops).

(** The stop pairs of the keys of [linefeature_dict], the warning about
    the stops that were not found, and the removal of the keys of these
    stops: the points, the dictionary and the messages afterwards. *)
Definition generate_stop_pairs (lfd : gmap string lfval) (log : list message)
  : result (list (pair_point geometry) * gmap string lfval * list message) :=
  let! s := for_each stop_pairs_body (PairsState [] [] [])
              (map_to_list lfd).*1 in
  let log' :=
    match badStops s with
    | [] => log
    | _ :: _ => log ++ [missing_stops_warning (remove_dups (badStops s))]
    end in
  let! lfd' :=
    match badkeys s with
    | [] => Ok lfd
    | _ :: _ => for_each delitem lfd (remove_dups (badkeys s))
    end in
  Ok (pair_points s, lfd', log').

End StopPairs.

(** The clean-up of the lines with a zero length: each is removed from
    [linefeature_dict] and from the lines. *)
Definition delete_zero_length (lfd : gmap string lfval)
    (lines : list line_feature)
  : result (gmap string lfval * list line_feature) :=
  let! lfd' := for_each (λ d row, delitem d (ln_pair_id row)) lfd
                 (filter zero_length lines) in
  Ok (lfd', filter (λ row, ¬ zero_length row) lines).

(** The loop over [cur4]: the updated rows and [linefeature_dict]. *)
Definition cur4_loop (maxint : Z) (lfd : gmap string lfval)
    (rows : list line_row) : result (list line_row * gmap string lfval) :=
  for_each
    (λ acc row,
       let! r := cur4_body maxint acc.2 row in
       Ok (acc.1 ++ [r.1], r.2))
    ([], lfd) rows.

(** The rows of the [linefeatures] table:
    [itertools.imap(retrieve_linefeatures_info, linefeature_dict.keys())]. *)
Definition linefeatures_rows (maxint : Z) (lfd : gmap string lfval)
  : result (list linefeatures_row) :=
  map_each (retrieve_linefeatures_info maxint lfd) (map_to_list lfd).*1.

(** The stops a key is checked for, with their geometries, when both are
    found. *)
Definition key_geometries {geometry} (stoplatlon_dict : gmap string geometry)
    (key : string) : option (string * geometry * string * geometry) :=
  stop1 ← split_key key !! 0%nat;
  stop1_geom ← stoplatlon_dict !! stop1;
  stop2 ← split_key key !! 1%nat;
  stop2_geom ← stoplatlon_dict !! stop2;
  Some (stop1, stop1_geom, stop2, stop2_geom).

(** The stop a key is reported for: its first stop when that is not
    found, else its second stop when that is not found. *)
Definition missing_stop {geometry} (stoplatlon_dict : gmap string geometry)
    (key : string) : option string :=
  stop1 ← split_key key !! 0%nat;
  match stoplatlon_dict !! stop1 with
  | None => Some stop1
  | Some _ =>
      stop2 ← split_key key !! 1%nat;
      match stoplatlon_dict !! stop2 with
      | None => Some stop2
      | Some _ => None
      end
  end.

(** The two points of a key whose stops are found. *)
Definition key_points {geometry} (stoplatlon_dict : gmap string geometry)
    (key : string) : list (pair_point geometry) :=
  match key_geometries stoplatlon_dict key with
  | Some (stop1, stop1_geom, stop2, stop2_geom) =>
      [PairPoint stop1_geom stop1 key 1; PairPoint stop2_geom stop2 key 2]
  | None => []
  end.

(** Stops A and B with a geometry, and the keys of three lines, two of
    them to stops without one. *)
Definition demo_stoplatlon_dict : gmap string Z :=
  {["A" := 1; "B" := 2]}.

Definition demo_linefeature_dict : gmap string lfval :=
  {["A , B , 3" := LfTrue; "A , X , 3" := LfTrue; "Y , Z , 3" := LfTrue]}.

(** The row of a line before the loop over [cur4]: the two new fields are
    null. *)
Definition line_row_of (line : line_feature) : line_row :=
  LineRow (ln_pair_id line) None None (ln_OID line).

(** What the run holds at its end. *)
Record finished (geometry : Type) := Finished {
  fin_log : list message;
  fin_points : list (pair_point geometry);
  fin_lines : list line_row;
  fin_linefeatures : list linefeatures_row;
  fin_schedules : list schedules_record;
  fin_dict : gmap string lfval
}.
Arguments Finished {geometry} _ _ _ _ _ _.
Arguments fin_log {geometry} _.
Arguments fin_points {geometry} _.
Arguments fin_lines {geometry} _.
Arguments fin_linefeatures {geometry} _.
Arguments fin_schedules {geometry} _.
Arguments fin_dict {geometry} _.

(** The run after the schedules are inserted: the stop pairs, the lines
    [lines_fc] that [PointsToLine] makes of them, the clean-up of the lines
    of zero length, the route types and ObjectIDs of the lines, the
    [linefeatures] table and the update of [schedules]. *)
Definition finish_run {geometry} (maxint : Z)
    (stoplatlon_dict : gmap string geometry)
    (unicode_list : list string → string)
    (lines_fc : list line_feature) (out : produced)
  : result (finished geometry) :=
  let! pairs := generate_stop_pairs geometry stoplatlon_dict unicode_list
                  (lines out) (log out) in
  let! cleaned := delete_zero_length pairs.1.2 lines_fc in
  let! numbered := cur4_loop maxint cleaned.1 (line_row_of <$> cleaned.2) in
  let! linefeatures := linefeatures_rows maxint numbered.2 in
  let! schedules' := update_SourceOID numbered.2 (schedules out) in
  Ok {| fin_log := pairs.2;
        fin_points := pairs.1.1;
        fin_lines := numbered.1;
        fin_linefeatures := linefeatures;
        fin_schedules := schedules';
        fin_dict := numbered.2 |}.

(** The ObjectID of the line of a key, among lines of other lengths than
    zero: that of the last such line. *)
Definition line_OID_of (lines_fc : list line_feature) (key : string)
  : option Z :=
  ln_OID
    <$> last (filter (λ line, ln_pair_id line = key ∧ ¬ zero_length line)
                lines_fc).

(** The route type of a [linefeatures] row, by the text it is read
    from. *)
Definition linefeatures_route_type (maxint : Z) (raw : string) : pyval :=
  match parse_int raw with
  | Some z => if fits_int maxint z then PyInt z else PyLong z
  | None => PyStr "NULL"
  end.

(** Stops A, B and C with a geometry, and the two lines of the trips of
    [zero_headway_db], the second of zero length. *)
Definition demo_stops_ABC : gmap string Z :=
  {["A" := 1; "B" := 2; "C" := 3]}.

Definition demo_lines_fc : list line_feature :=
  [LineFeature "A , B , 3" 12 1; LineFeature "B , C , 3" 0 2].


(** ** The list of GTFS directories *)

(** [s[i]] on a text: the character, or [IndexError]. *)
Definition str_getitem (s : string) (i : nat) : result ascii :=
  match String.get i s with
  | Some c => Ok c
  | None => Raise IndexError
  end.

(** [d[-1]]. *)
Definition str_last (d : string) : result ascii :=
  match String.length d with
  | O => Raise IndexError
  | S n => str_getitem d n
  end.

(** [d[1:-1]]. *)
Definition slice_1_m1 (d : string) : string :=
  String.substring 1 (String.length d - 2) d.

(** [l.index(d)]: the first position of [d], or [ValueError]. *)
Fixpoint list_index (l : list string) (d : string) : result nat :=
  match l with
  | [] => Raise ValueError
  | x :: l' =>
      if decide (x = d) then Ok O
      else let! loc := list_index l' d in Ok (S loc)
  end.

(** The body of the loop over [inGTFSdirList], for the position the loop
    has reached: the list is changed in place while the loop reads it. *)
Definition strip_quotes_body (inGTFSdirList : list string) (i : nat)
  : result (list string) :=
  let! d := list_getitem inGTFSdirList i in
  let! first := str_getitem d 0 in
  if decide (first = "'"%char) then
    let! last := str_last d in
    if decide (last = "'"%char) then
      let! loc := list_index inGTFSdirList d in
      Ok (<[loc := slice_1_m1 d]> inGTFSdirList)
    else Ok inGTFSdirList
  else Ok inGTFSdirList.

(** The loop over [inGTFSdirList]. *)
Definition strip_quotes_loop (inGTFSdirList : list string)
  : result (list string) :=
  for_each strip_quotes_body inGTFSdirList (seq 0 (length inGTFSdirList)).

(** The list of GTFS directories of the text of the parameter. *)
Definition fix_inGTFSdirList (inGTFSdir : string) : result (list string) :=
  strip_quotes_loop (split_scan ";" 0 EmptyString inGTFSdir).

(** A text between two single quotes, and a text without them. *)
Definition quoted (d : string) : bool :=
  match String.get 0 d, String.get (String.length d - 1) d with
  | Some first, Some last =>
      bool_decide (first = "'"%char) && bool_decide (last = "'"%char)
  | _, _ => false
  end.

Definition strip_quotes (d : string) : string :=
  if quoted d then slice_1_m1 d else d.

(** A text without a semicolon, and [";".join(pieces)]. *)
Fixpoint semicolon_free (s : string) : bool :=
  match s with
  | EmptyString => true
  | String c s' => negb (Ascii.eqb c ";") && semicolon_free s'
  end.

Fixpoint join_semicolon (pieces : list string) : string :=
  match pieces with
  | [] => EmptyString
  | [piece] => piece
  | piece :: rest => piece +:+ ";" +:+ join_semicolon rest
  end.

(** ** The stops feature class *)

(** A row of the stops table as the loop over the stops reads it. [coord]
    is what the latitude and the longitude columns hold, [column] what the
    columns hold that the loop only copies. *)
Record stop_record (coord column : Type) := StopRecord {
  in_stop_id : string;
  in_stop_lat : coord;
  in_stop_lon : coord;
  in_stop_code : column;
  in_stop_name : column;
  in_stop_desc : option sqlval;
  in_zone_id : column;
  in_stop_url : column;
  in_location_type : option sqlval;
  in_parent_station : option string;
  in_wheelchair_boarding : column
}.
Arguments StopRecord {coord column} _ _ _ _ _ _ _ _ _ _ _.
Arguments in_stop_id {coord column} _.
Arguments in_stop_lat {coord column} _.
Arguments in_stop_lon {coord column} _.
Arguments in_stop_code {coord column} _.
Arguments in_stop_name {coord column} _.
Arguments in_stop_desc {coord column} _.
Arguments in_zone_id {coord column} _.
Arguments in_stop_url {coord column} _.
Arguments in_location_type {coord column} _.
Arguments in_parent_station {coord column} _.
Arguments in_wheelchair_boarding {coord column} _.

(** A row of the stops feature class, as [cur3] inserts it. *)
Record stop_feature (geometry column : Type) := StopFeature {
  fc_shape : geometry;
  fc_stop_id : string;
  fc_stop_code : column;
  fc_stop_name : column;
  fc_stop_desc : string;
  fc_zone_id : column;
  fc_stop_url : column;
  fc_location_type : option sqlval;
  fc_parent_station : option string;
  fc_wheelchair_boarding : string
}.
Arguments StopFeature {geometry column} _ _ _ _ _ _ _ _ _ _.
Arguments fc_shape {geometry column} _.
Arguments fc_stop_id {geometry column} _.
Arguments fc_stop_code {geometry column} _.
Arguments fc_stop_name {geometry column} _.
Arguments fc_stop_desc {geometry column} _.
Arguments fc_zone_id {geometry column} _.
Arguments fc_stop_url {geometry column} _.
Arguments fc_location_type {geometry column} _.
Arguments fc_parent_station {geometry column} _.
Arguments fc_wheelchair_boarding {geometry column} _.

(** What stops the loop over the stops: the [TypeError] of the slice of a
    [stop_desc] that is not a text, and whatever the making of the point
    raises. *)
Inductive stops_exn := DescTypeError | PointError.

Definition text_field_length : nat := 500.

(** [location_type == n]: a null or a text is no integer. *)
Definition location_type_is (location_type : option sqlval) (n : Z) : bool :=
  match location_type with
  | Some (SInt z) => z =? n
  | _ => false
  end.

(** [parent_station in used_parent_stations]. *)
Definition parent_station_in (used_parent_stations : list string)
    (parent_station : option string) : bool :=
  match parent_station with
  | Some station => bool_decide (station ∈ used_parent_stations)
  | None => false
  end.

Section Stops.

Variables geometry coord column : Type.

(** The projected point of a latitude and a longitude ([float], [Point],
    [PointGeometry] and [projectAs]), when nothing raises; [unicode] of a
    copied column; and the parent stations the first query returns. *)
Variable point_geometry : coord → coord → option geometry.
Variable unicode_column : column → string.
Variable used_parent_stations : list string.

(** The body of the loop over the stops: the rows of the feature class
    and [stoplatlon_dict] afterwards. *)
Definition stops_body
    (s : list (stop_feature geometry column) * gmap string geometry)
    (stop : stop_record coord column)
  : stops_exn + (list (stop_feature geometry column) * gmap string geometry) :=
  let stop_id := in_stop_id stop in
  match in_stop_desc stop with
  | Some (SText desc) =>
      let stop_desc := String.substring 0 text_field_length desc in
      let location_type := in_location_type stop in
      let parent_station := in_parent_station stop in
      let wheelchair_boarding :=
        unicode_column (in_wheelchair_boarding stop) in
      if location_type_is location_type 1
         && negb (bool_decide (stop_id ∈ used_parent_stations))
      then inr s
      else if location_type_is location_type 2
              && negb (parent_station_in used_parent_stations parent_station)
      then inr s
      else
        match point_geometry (in_stop_lat stop) (in_stop_lon stop) with
        | Some ptGeometry_projected =>
            inr (s.1 ++ [StopFeature ptGeometry_projected stop_id
                           (in_stop_code stop) (in_stop_name stop) stop_desc
                           (in_zone_id stop) (in_stop_url stop) location_type
                           parent_station wheelchair_boarding],
                 <[stop_id := ptGeometry_projected]> s.2)
        | None => inl PointError
        end
  | _ => inl DescTypeError
  end.

Fixpoint stops_loop
    (s : list (stop_feature geometry column) * gmap string geometry)
    (stops : list (stop_record coord column))
  : stops_exn + (list (stop_feature geometry column) * gmap string geometry) :=
  match stops with
  | [] => inr s
  | stop :: rest =>
      match stops_body s stop with
      | inr s' => stops_loop s' rest
      | inl e => inl e
      end
  end.

(** The stops feature class and [stoplatlon_dict] of the stops table. *)
Definition generate_stops (stops : list (stop_record coord column))
  : stops_exn + (list (stop_feature geometry column) * gmap string geometry) :=
  stops_loop ([], ∅) stops.

(** A stop the loop passes over: a parent station that no stop uses, or a
    station entrance of no used parent station. *)
Definition skipped (stop : stop_record coord column) : bool :=
  (location_type_is (in_location_type stop) 1
   && negb (bool_decide (in_stop_id stop ∈ used_parent_stations)))
  || (location_type_is (in_location_type stop) 2
      && negb (parent_station_in used_parent_stations
                 (in_parent_station stop))).

(** The description of a stop when it is a text. *)
Definition desc_text (stop : stop_record coord column) : option string :=
  match in_stop_desc stop with
  | Some (SText desc) => Some desc
  | _ => None
  end.

(** The row of a stop that is written. *)
Definition stop_feature_of (stop : stop_record coord column)
  : option (stop_feature geometry column) :=
  desc ← desc_text stop;
  shape ← point_geometry (in_stop_lat stop) (in_stop_lon stop);
  Some (StopFeature shape (in_stop_id stop) (in_stop_code stop)
          (in_stop_name stop) (String.substring 0 text_field_length desc)
          (in_zone_id stop) (in_stop_url stop) (in_location_type stop)
          (in_parent_station stop)
          (unicode_column (in_wheelchair_boarding stop))).

(** A stop at which the loop does not stop. *)
Definition stop_passes (stop : stop_record coord column) : bool :=
  match desc_text stop with
  | Some _ =>
      skipped stop
      || bool_decide
           (is_Some (point_geometry (in_stop_lat stop) (in_stop_lon stop)))
  | None => false
  end.

End Stops.

Arguments stops_body {geometry coord column} _ _ _ _ _.
Arguments stops_loop {geometry coord column} _ _ _ _ _.
Arguments generate_stops {geometry coord column} _ _ _ _.
Arguments skipped {coord column} _ _.
Arguments desc_text {coord column} _.
Arguments stop_feature_of {geometry coord column} _ _ _.
Arguments stop_passes {geometry coord column} _ _ _.

(** Stops with latitudes and longitudes in whole degrees: a station that
    stop B uses, a station that no stop uses, and an entrance of each. *)
Definition demo_point (lat lon : Z) : option (Z * Z) :=
  if (Z.abs lat <=? 90) && (Z.abs lon <=? 180) then Some (lon, lat) else None.

Definition demo_stops : list (stop_record Z (option string)) :=
  [StopRecord "A" 10 20 None (Some "Stop A") (Some (SText "first stop"))
     None None (Some (SInt 0)) None None;
   StopRecord "B" 11 21 None (Some "Stop B") (Some (SText EmptyString))
     None None (Some (SInt 0)) (Some "S") None;
   StopRecord "S" 12 22 None (Some "Station S") (Some (SText EmptyString))
     None None (Some (SInt 1)) None None;
   StopRecord "T" 13 23 None (Some "Station T") (Some (SText EmptyString))
     None None (Some (SInt 1)) None None;
   StopRecord "E" 14 24 None (Some "Entrance of S") (Some (SText EmptyString))
     None None (Some (SInt 2)) (Some "S") None;
   StopRecord "F" 15 25 None (Some "Entrance of T") (Some (SText EmptyString))
     None None (Some (SInt 2)) (Some "T") None;
   StopRecord "A" 16 26 None (Some "Stop A again") (Some (SText EmptyString))
     None None None None None].

Definition demo_unicode (v : option string) : string :=
  default "None" v.
(** * Properties *)

(** ** [range] *)

Lemma range_up_elem fuel i stop step x :
  0 < step → (Z.to_nat (stop - i) ≤ fuel)%nat →
  x ∈ range_up fuel i stop step ↔ ∃ k, 0 ≤ k ∧ x = i + k * step ∧ x < stop.
Proof.
  intros Hstep. revert i. induction fuel as [|fuel IH]; intros i Hfuel; simpl.
  - split; [intros []%elem_of_nil|]. intros (k & ? & -> & ?). exfalso. nia.
  - destruct (Z.ltb_spec i stop) as [Hlt|Hge].
    + rewrite elem_of_cons, IH by lia. split.
      * intros [->|(k & ? & -> & ?)].
        -- exists 0. lia.
        -- exists (k + 1). lia.
      * intros (k & Hk & -> & ?).
        destruct (decide (k = 0)) as [->|]; [left; lia|].
        right. exists (k - 1). lia.
    + split; [intros []%elem_of_nil|]. intros (k & ? & -> & ?). exfalso. nia.
Qed.

Lemma range_up_length fuel i stop step :
  0 < step → (Z.to_nat (stop - i) ≤ fuel)%nat →
  length (range_up fuel i stop step) = Z.to_nat ((stop - i + step - 1) / step).
Proof.
  intros Hstep. revert i. induction fuel as [|fuel IH]; intros i Hfuel; simpl.
  - assert ((stop - i + step - 1) / step <= 0); [|lia].
    apply Z.lt_succ_r, Z.div_lt_upper_bound; lia.
  - destruct (Z.ltb_spec i stop) as [Hlt|Hge]; simpl.
    + rewrite IH by lia.
      replace (stop - i + step - 1) with (stop - (i + step) + step - 1 + 1 * step)
        by lia.
      rewrite Z.div_add by lia.
      assert (0 <= (stop - (i + step) + step - 1) / step)
        by (apply Z.div_pos; lia).
      lia.
    + assert ((stop - i + step - 1) / step <= 0); [|lia].
      apply Z.lt_succ_r, Z.div_lt_upper_bound; lia.
Qed.

Lemma range_up_NoDup fuel i stop step :
  0 < step → NoDup (range_up fuel i stop step).
Proof.
  intros Hstep. revert i.
  assert (Hge : ∀ fuel i x, x ∈ range_up fuel i stop step → i ≤ x).
  { clear fuel. induction fuel as [|fuel IH]; intros i x; simpl.
    - intros []%elem_of_nil.
    - destruct (i <? stop); [|intros []%elem_of_nil].
      intros [->|?%IH]%elem_of_cons; lia. }
  induction fuel as [|fuel IH]; intros i; simpl; [constructor|].
  destruct (i <? stop); [|constructor].
  constructor; [|apply IH]. intros ?%Hge. lia.
Qed.

Lemma py_range_Ok start stop step :
  step ≠ 0 → py_range start stop step = Ok (range_list start stop step).
Proof. intros ?. unfold py_range. by destruct (Z.eqb_spec step 0). Qed.

Lemma py_range_zero start stop : py_range start stop 0 = Raise ValueError.
Proof. done. Qed.

Lemma range_down_elem fuel i stop step x :
  step < 0 → (Z.to_nat (i - stop) ≤ fuel)%nat →
  x ∈ range_down fuel i stop step ↔ ∃ k, 0 ≤ k ∧ x = i + k * step ∧ stop < x.
Proof.
  intros Hstep. revert i. induction fuel as [|fuel IH]; intros i Hfuel; simpl.
  - split; [intros []%elem_of_nil|]. intros (k & ? & -> & ?). exfalso. nia.
  - destruct (Z.ltb_spec stop i) as [Hlt|Hge].
    + rewrite elem_of_cons, IH by lia. split.
      * intros [->|(k & ? & -> & ?)].
        -- exists 0. lia.
        -- exists (k + 1). lia.
      * intros (k & Hk & -> & ?).
        destruct (decide (k = 0)) as [->|]; [left; lia|].
        right. exists (k - 1). lia.
    + split; [intros []%elem_of_nil|]. intros (k & ? & -> & ?). exfalso. nia.
Qed.

Lemma range_down_length fuel i stop step :
  step < 0 → (Z.to_nat (i - stop) ≤ fuel)%nat →
  length (range_down fuel i stop step)
  = Z.to_nat ((i - stop + - step - 1) / - step).
Proof.
  intros Hstep. revert i. induction fuel as [|fuel IH]; intros i Hfuel; simpl.
  - assert ((i - stop + - step - 1) / - step <= 0); [|lia].
    apply Z.lt_succ_r, Z.div_lt_upper_bound; lia.
  - destruct (Z.ltb_spec stop i) as [Hlt|Hge]; simpl.
    + rewrite IH by lia.
      replace (i - stop + - step - 1)
        with (i + step - stop + - step - 1 + 1 * - step) by lia.
      rewrite Z.div_add by lia.
      assert (0 <= (i + step - stop + - step - 1) / - step)
        by (apply Z.div_pos; lia).
      lia.
    + assert ((i - stop + - step - 1) / - step <= 0); [|lia].
      apply Z.lt_succ_r, Z.div_lt_upper_bound; lia.
Qed.

Lemma range_down_NoDup fuel i stop step :
  step < 0 → NoDup (range_down fuel i stop step).
Proof.
  intros Hstep. revert i.
  assert (Hle : ∀ fuel i x, x ∈ range_down fuel i stop step → x ≤ i).
  { clear fuel. induction fuel as [|fuel IH]; intros i x; simpl.
    - intros []%elem_of_nil.
    - destruct (stop <? i); [|intros []%elem_of_nil].
      intros [->|?%IH]%elem_of_cons; lia. }
  induction fuel as [|fuel IH]; intros i; simpl; [constructor|].
  destruct (stop <? i); [|constructor].
  constructor; [|apply IH]. intros ?%Hle. lia.
Qed.

(** The quotient rounded up, by the quotient rounded down. *)
Lemma ceil_div x p : 0 < p → (x + p - 1) / p = - (- x / p).
Proof.
  intros Hp. pose proof (Z.div_mod (- x) p ltac:(lia)) as Hdm.
  pose proof (Z.mod_pos_bound (- x) p Hp) as Hm.
  symmetry. apply Z.div_unique with (x + p - 1 + p * (- x / p)); lia.
Qed.

(** [range(start, stop, step)] for a step other than zero: the values
    [start + k * step] before [stop] in the direction of the step, each
    once; their number is the quotient of [stop - start] by [step] rounded
    up, or zero. *)
Lemma range_list_spec start stop step :
  step ≠ 0 →
  (∀ x, x ∈ range_list start stop step
        ↔ ∃ k, 0 ≤ k ∧ x = start + k * step
               ∧ if 0 <? step then x < stop else stop < x)
  ∧ NoDup (range_list start stop step)
  ∧ Z.of_nat (length (range_list start stop step))
    = Z.max 0 (- ((start - stop) / step)).
Proof.
  intros Hstep. unfold range_list.
  destruct (Z.ltb_spec 0 step) as [Hpos|Hneg].
  - split; [|split].
    + intros x. by apply range_up_elem.
    + by apply range_up_NoDup.
    + rewrite range_up_length, ceil_div by done.
      replace (- (stop - start)) with (start - stop) by lia. lia.
  - assert (step < 0) as Hlt by lia. split; [|split].
    + intros x. by apply range_down_elem.
    + by apply range_down_NoDup.
    + rewrite range_down_length, ceil_div by (done || lia).
      replace (- (start - stop)) with (- (start - stop)) by lia.
      rewrite <- (Z.div_opp_opp (start - stop) step) by done. lia.
Qed.

(** ** Rounding *)

(** A whole number of seconds is its own rounding. *)
Lemma int_round_inject_Z z : int_round (inject_Z z) = z.
Proof.
  unfold int_round. simpl. change (2 * 1) with 2.
  destruct (Z.leb_spec 0 z).
  - replace (2 * z + 1) with (1 + z * 2) by lia.
    rewrite Z.div_add by lia. done.
  - replace (2 * - z + 1) with (1 + (- z) * 2) by lia.
    rewrite Z.div_add by lia. change (1 / 2) with 0. lia.
Qed.

(** The rounding is within half a second, and a half goes away from
    zero. *)
Lemma int_round_nearest x :
  (inject_Z (int_round x) - (1 # 2) <= x
   ∧ x <= inject_Z (int_round x) + (1 # 2))%Q.
Proof.
  destruct x as [n d]. unfold int_round, Qle, Qminus, Qplus, Qopp, inject_Z.
  simpl. change (Z.pos (1 * 2)) with 2.
  set (D := Z.pos d). assert (0 < D) by (unfold D; lia).
  destruct (Z.leb_spec 0 n).
  - pose proof (Z.div_mod (2 * n + D) (2 * D) ltac:(lia)) as Hdm.
    pose proof (Z.mod_pos_bound (2 * n + D) (2 * D) ltac:(lia)) as Hm.
    set (q := (2 * n + D) / (2 * D)) in *.
    set (m := (2 * n + D) mod (2 * D)) in *. clearbody q m D. lia.
  - pose proof (Z.div_mod (2 * - n + D) (2 * D) ltac:(lia)) as Hdm.
    pose proof (Z.mod_pos_bound (2 * - n + D) (2 * D) ltac:(lia)) as Hm.
    set (q := (2 * - n + D) / (2 * D)) in *.
    set (m := (2 * - n + D) mod (2 * D)) in *. clearbody q m D. lia.
Qed.

Example int_round_half_up : int_round (5 # 2) = 3.
Proof. reflexivity. Qed.

Example int_round_half_down : int_round (- 5 # 2) = -3.
Proof. reflexivity. Qed.

(** ** Segments *)

Lemma segments_from_length from start rest :
  length (segments_from from start rest) = length rest.
Proof.
  revert from start. induction rest as [|st rest IH]; intros; simpl; [done|].
  by rewrite IH.
Qed.

Lemma trip_segments_length stop_times :
  length (trip_segments stop_times) = (length stop_times - 1)%nat.
Proof.
  destruct stop_times as [|st0 rest]; simpl; [done|].
  rewrite segments_from_length. lia.
Qed.

(** Segment [i] joins visit [i] and visit [i + 1]. *)
Lemma trip_segments_lookup stop_times i v w :
  stop_times !! i = Some v → stop_times !! S i = Some w →
  trip_segments stop_times !! i
  = Some (Segment (stop_id v) (stop_id w) (departure_time v) (arrival_time w)).
Proof.
  destruct stop_times as [|st0 rest]; [done|]. simpl.
  revert st0 i v. induction rest as [|st rest IH]; intros st0 i v Hv Hw.
  - by destruct i.
  - destruct i as [|i]; simpl in *.
    + by simplify_eq.
    + by apply (IH st i v).
Qed.

(** ** The loop of [Make_StopsTimes_Rows] *)

Section Loops.

Variable trip_routetype_dict : gmap string sqlval.
Variable frequencies_dict : gmap string (list window).
Variable stoptimefetch : string → list stop_time.

Lemma StopsTimes_loop route_type trip_id s rest :
  let s' := foldl (StopsTimes_body route_type trip_id) s rest in
  stop_times_current_trip s'
  = stop_times_current_trip s
      ++ (static_row route_type trip_id
            <$> segments_from (previous_stop s) (start_time s) rest)
  ∧ linefeature_dict s'
    = register (segment_key route_type
                  <$> segments_from (previous_stop s) (start_time s) rest)
               (linefeature_dict s).
Proof.
  revert s. induction rest as [|st rest IH]; intros s; simpl.
  - by rewrite app_nil_r.
  - destruct (IH (StopsTimes_body route_type trip_id s st)) as [-> ->].
    simpl. by rewrite <- app_assoc.
Qed.

(** The running start after a visit is the departure of that visit. *)
Lemma StopsTimes_loop_start route_type trip_id s rest :
  start_time (foldl (StopsTimes_body route_type trip_id) s rest)
  = default (start_time s) (departure_time <$> last rest).
Proof.
  revert s. induction rest as [|st rest IH]; intros s; simpl; [done|].
  rewrite IH, last_cons. simpl. by destruct (last rest).
Qed.

Lemma Make_StopsTimes_Rows_segments trip_id route_type stop_times lfd :
  trip_routetype_dict !! trip_id = Some route_type →
  Make_StopsTimes_Rows trip_routetype_dict trip_id stop_times lfd
  = Ok (static_row route_type trip_id <$> trip_segments stop_times,
        register (segment_key route_type <$> trip_segments stop_times) lfd).
Proof.
  intros Hrt. unfold Make_StopsTimes_Rows, getitem. rewrite Hrt. simpl.
  destruct stop_times as [|st0 [|st1 rest]]; [done..|].
  change (length (st0 :: st1 :: rest) <? 2)%nat with false. cbv iota.
  set (s0 := LoopState _ _ _ _).
  destruct (StopsTimes_loop route_type trip_id s0 (st1 :: rest)) as [-> ->].
  done.
Qed.

(** *** The loop of [Make_Frequency_Rows] *)

Lemma window_rows_Ok key trip_id a b w :
  headway w ≠ 0 →
  window_rows key trip_id a b w
  = Ok ((λ i, ScheduleRow key (i + a) (i + b) trip_id) <$> window_ticks w).
Proof. intros ?. unfold window_rows. by rewrite py_range_Ok. Qed.

Lemma windows_loop key trip_id a b acc windows :
  Forall (λ w, headway w ≠ 0) windows →
  for_each (λ acc w, let! new := window_rows key trip_id a b w in
                     Ok (acc ++ new)) acc windows
  = Ok (acc ++ (w ← windows;
                (λ i, ScheduleRow key (i + a) (i + b) trip_id)
                  <$> window_ticks w)).
Proof.
  intros Hws. revert acc.
  induction Hws as [|w windows Hw _ IH]; intros acc; simpl.
  - by rewrite app_nil_r.
  - rewrite window_rows_Ok by done. simpl. rewrite IH. by rewrite <- app_assoc.
Qed.

Lemma Frequency_loop route_type trip_id first windows s rest :
  frequencies_dict !! trip_id = Some windows →
  Forall (λ w, headway w ≠ 0) windows →
  ∃ s', for_each (Frequency_body frequencies_dict route_type trip_id first)
          s rest = Ok s'
    ∧ stop_times_current_trip s'
      = stop_times_current_trip s
          ++ (g ← segments_from (previous_stop s) (start_time s) rest;
              frequency_rows route_type trip_id first windows g)
    ∧ linefeature_dict s'
      = register (segment_key route_type
                    <$> segments_from (previous_stop s) (start_time s) rest)
                 (linefeature_dict s).
Proof.
  intros Hfd Hws. revert s.
  induction rest as [|st rest IH]; intros s; simpl.
  - eexists. split; [done|]. by rewrite app_nil_r.
  - unfold Frequency_body at 1, getitem. rewrite Hfd. simpl.
    rewrite windows_loop by done. simpl.
    edestruct IH as (s' & Hs' & Hrows & Hlfd). exists s'.
    split; [exact Hs'|]. rewrite Hrows, Hlfd. simpl.
    by rewrite <- app_assoc.
Qed.

Lemma Make_Frequency_Rows_segments trip_id route_type windows stop_times lfd :
  trip_routetype_dict !! trip_id = Some route_type →
  frequencies_dict !! trip_id = Some windows →
  Forall (λ w, headway w ≠ 0) windows →
  Make_Frequency_Rows trip_routetype_dict frequencies_dict trip_id
    stop_times lfd
  = Ok (g ← trip_segments stop_times;
        frequency_rows route_type trip_id (first_departure stop_times)
          windows g,
        register (segment_key route_type <$> trip_segments stop_times) lfd).
Proof.
  intros Hrt Hfd Hws. unfold Make_Frequency_Rows, getitem. rewrite Hrt. simpl.
  destruct stop_times as [|st0 [|st1 rest]]; [done..|].
  change (length (st0 :: st1 :: rest) <? 2)%nat with false. cbv iota.
  set (s0 := LoopState _ _ _ _).
  destruct (Frequency_loop route_type trip_id (departure_time st0) windows
              s0 (st1 :: rest) Hfd Hws) as (s' & -> & Hrows & Hlfd).
  simpl. by rewrite Hrows, Hlfd.
Qed.

(** *** One trip, all trips *)

Lemma Make_Rows_For_Trip_rows trip_id lfd :
  is_Some (trip_routetype_dict !! trip_id) →
  headways_nonzero frequencies_dict →
  Make_Rows_For_Trip trip_routetype_dict frequencies_dict stoptimefetch
    trip_id lfd
  = Ok (trip_rows trip_routetype_dict frequencies_dict stoptimefetch trip_id,
        register (trip_keys trip_routetype_dict stoptimefetch trip_id) lfd).
Proof.
  intros [route_type Hrt] Hnz.
  unfold Make_Rows_For_Trip, trip_rows, trip_keys. rewrite Hrt. simpl.
  destruct (frequencies_dict !! trip_id) as [windows|] eqn:Hfd.
  - rewrite decide_True by done.
    by apply Make_Frequency_Rows_segments, (Hnz trip_id).
  - rewrite decide_False by (by intros [??]).
    by apply Make_StopsTimes_Rows_segments.
Qed.

Lemma register_app keys1 keys2 lfd :
  register (keys1 ++ keys2) lfd = register keys2 (register keys1 lfd).
Proof. apply foldl_app. Qed.

Lemma chain_rows_loop trip_ids acc :
  Forall (λ t, is_Some (trip_routetype_dict !! t)) trip_ids →
  headways_nonzero frequencies_dict →
  for_each
    (λ acc trip_id,
       let! r := Make_Rows_For_Trip trip_routetype_dict frequencies_dict
                   stoptimefetch trip_id acc.2 in
       Ok (acc.1 ++ r.1, r.2)) acc trip_ids
  = Ok (acc.1 ++ (t ← trip_ids;
                  trip_rows trip_routetype_dict frequencies_dict
                    stoptimefetch t),
        register (t ← trip_ids; trip_keys trip_routetype_dict stoptimefetch t)
                 acc.2).
Proof.
  intros Hts Hnz. revert acc.
  induction Hts as [|t trip_ids Ht _ IH]; intros [rows lfd]; simpl.
  - by rewrite app_nil_r.
  - rewrite Make_Rows_For_Trip_rows by done. simpl. rewrite IH. simpl.
    by rewrite <- app_assoc, register_app.
Qed.

Lemma chain_rows_Ok trip_ids lfd :
  Forall (λ t, is_Some (trip_routetype_dict !! t)) trip_ids →
  headways_nonzero frequencies_dict →
  chain_rows trip_routetype_dict frequencies_dict stoptimefetch trip_ids lfd
  = Ok (t ← trip_ids;
        trip_rows trip_routetype_dict frequencies_dict stoptimefetch t,
        register (t ← trip_ids; trip_keys trip_routetype_dict stoptimefetch t)
                 lfd).
Proof. intros. unfold chain_rows. by rewrite chain_rows_loop. Qed.

End Loops.

(** ** The reference dictionaries *)

Lemma make_frequencies_dict_snoc frequencies freq log :
  make_frequencies_dict (frequencies ++ [freq]) log
  = frequencies_body (make_frequencies_dict frequencies log) freq.
Proof. unfold make_frequencies_dict. by rewrite foldl_app. Qed.

Lemma trip_windows_snoc frequencies freq trip_id :
  trip_windows (frequencies ++ [freq]) trip_id
  = trip_windows frequencies trip_id
      ++ (if decide (freq_trip_id freq = trip_id ∧ freq_headway_secs freq ≠ 0)
          then [window_of freq] else []).
Proof.
  unfold trip_windows. rewrite filter_app, fmap_app. f_equal.
  rewrite filter_cons, filter_nil. by case_decide.
Qed.

(** The dictionary holds, for each trip, its rows with a headway other
    than zero, in order; the log grows by one warning for each row with a
    zero headway. *)
Lemma make_frequencies_dict_spec frequencies log :
  (∀ trip_id, (make_frequencies_dict frequencies log).1 !! trip_id
              = entry_of (trip_windows frequencies trip_id))
  ∧ (make_frequencies_dict frequencies log).2
    = log ++ (zero_headway_warning ∘ freq_trip_id
                <$> filter (λ f, freq_headway_secs f = 0) frequencies).
Proof.
  induction frequencies as [|freq frequencies [IHd IHl]] using rev_ind.
  - simpl. split; [intros; apply lookup_empty|]. by rewrite app_nil_r.
  - rewrite make_frequencies_dict_snoc. unfold frequencies_body.
    rewrite filter_app, fmap_app, filter_cons, filter_nil.
    destruct (Z.eqb_spec (freq_headway_secs freq) 0) as [Hz|Hnz]; simpl.
    + split.
      * intros t. rewrite IHd, trip_windows_snoc.
        rewrite decide_False by (intros [_ ?]; done). by rewrite app_nil_r.
      * rewrite IHl, decide_True by done. by rewrite <- app_assoc.
    + split.
      * intros t. rewrite trip_windows_snoc.
        destruct (decide (freq_trip_id freq = t)) as [<-|Hne].
        -- rewrite lookup_insert_eq, IHd, decide_True by done.
           destruct (trip_windows frequencies (freq_trip_id freq)); done.
        -- rewrite lookup_insert_ne, IHd by done.
           rewrite decide_False by (intros [? _]; done). by rewrite app_nil_r.
      * rewrite IHl, decide_False by done. simpl. by rewrite app_nil_r.
Qed.

Lemma make_frequencies_dict_log frequencies log :
  (make_frequencies_dict frequencies log).1
  = (make_frequencies_dict frequencies []).1.
Proof.
  apply map_eq. intros t.
  by rewrite !(proj1 (make_frequencies_dict_spec _ _)).
Qed.

Lemma make_frequencies_dict_nonzero frequencies log :
  headways_nonzero (make_frequencies_dict frequencies log).1.
Proof.
  intros t windows. rewrite (proj1 (make_frequencies_dict_spec _ _)).
  intros Hws. assert (windows = trip_windows frequencies t) as ->.
  { by destruct (trip_windows frequencies t); simplify_eq/=. }
  unfold trip_windows. apply Forall_fmap, Forall_forall.
  by intros f [[_ ?] _]%list_elem_of_filter.
Qed.

(** Dropping the rows with a zero headway from the table leaves the
    dictionary as it is. *)
Lemma make_frequencies_dict_filter frequencies log :
  (make_frequencies_dict frequencies log).1
  = (make_frequencies_dict
       (filter (λ f, freq_headway_secs f ≠ 0) frequencies) log).1.
Proof.
  apply map_eq. intros t.
  rewrite !(proj1 (make_frequencies_dict_spec _ _)). f_equal.
  unfold trip_windows. f_equal. rewrite list_filter_filter.
  apply list_filter_iff. tauto.
Qed.

Lemma make_trip_routetype_dict_snoc RouteDict trips trip log :
  make_trip_routetype_dict RouteDict (trips ++ [trip]) log
  = trip_routetype_body RouteDict
      (make_trip_routetype_dict RouteDict trips log) trip.
Proof. unfold make_trip_routetype_dict. by rewrite foldl_app. Qed.

(** The trips of the dictionary are the trips of the table. *)
Lemma make_trip_routetype_dict_dom RouteDict trips log trip_id :
  is_Some ((make_trip_routetype_dict RouteDict trips log).1 !! trip_id)
  ↔ trip_id ∈ trips.*1.
Proof.
  induction trips as [|trip trips IH] using rev_ind.
  - simpl. rewrite lookup_empty, elem_of_nil. split; [by intros [??]|done].
  - rewrite make_trip_routetype_dict_snoc, fmap_app, elem_of_app.
    unfold trip_routetype_body.
    destruct (RouteDict !! trip.2); simpl;
      rewrite lookup_insert, list_elem_of_singleton;
      (case_decide; [subst; split; eauto|rewrite IH; split; [tauto|]];
       by intros [?|?]).
Qed.

(** ** Repeated trip identifiers *)

Lemma tripDuplicateFetch_elem trips t n :
  (t, n) ∈ tripDuplicateFetch trips
  ↔ n = count_trip_id trips t ∧ (1 < n)%nat.
Proof.
  unfold tripDuplicateFetch.
  rewrite list_elem_of_filter, list_elem_of_fmap. simpl. split.
  - intros [? (t' & [= -> ->] & _)]. done.
  - intros [-> Hn]. split; [done|]. exists t. split; [done|].
    apply elem_of_remove_dups. unfold count_trip_id in Hn.
    destruct (filter (λ id, id = t) trips.*1) as [|id ?] eqn:Hf;
      [simpl in Hn; lia|].
    assert (id ∈ filter (λ id, id = t) trips.*1) as Hin
      by (rewrite Hf; left).
    by apply list_elem_of_filter in Hin as [-> ?].
Qed.

Lemma tripDuplicateFetch_nil trips :
  tripDuplicateFetch trips = [] ↔ ¬ ∃ t, (1 < count_trip_id trips t)%nat.
Proof.
  split.
  - intros Hnil [t Ht].
    assert ((t, count_trip_id trips t) ∈ tripDuplicateFetch trips) as Hin
      by (by apply tripDuplicateFetch_elem).
    rewrite Hnil in Hin. by apply elem_of_nil in Hin.
  - intros Hno. apply elem_of_nil_inv. intros [t n] [-> ?]%tripDuplicateFetch_elem.
    apply Hno. by exists t.
Qed.

(** ** The run *)

Lemma trip_ids_of_elem db t : t ∈ trip_ids_of db ↔ t ∈ (trips db).*1.
Proof.
  unfold trip_ids_of, trip_routetype_dict_of.
  rewrite <- make_trip_routetype_dict_dom, list_elem_of_fmap. split.
  - intros ([t' v] & -> & Hv%elem_of_map_to_list). by exists v.
  - intros [v Hv]. exists (t, v). split; [done|]. by apply elem_of_map_to_list.
Qed.

(** A run over a trips table with a repeated identifier stops at the
    check, with nothing but messages. *)
Lemma generate_schedules_duplicates db :
  tripDuplicateFetch (trips db) ≠ [] →
  generate_schedules db
  = (Some CustomError,
     {| log := [invalid_trips_error]
                 ++ (duplicate_error <$> tripDuplicateFetch (trips db))
                 ++ [failed_error];
        schedules := [];
        lines := ∅ |}).
Proof.
  intros Hdup. unfold generate_schedules.
  by destruct (tripDuplicateFetch (trips db)).
Qed.

(** A run over a trips table without repeated identifiers raises nothing:
    it inserts the rows of every trip and registers the key of every
    segment. *)
Lemma generate_schedules_rows db :
  tripDuplicateFetch (trips db) = [] →
  generate_schedules db
  = (None,
     {| log := (make_frequencies_dict (frequencies db)
                  (make_trip_routetype_dict (make_RouteDict (routes db))
                     (trips db) []).2).2;
        schedules :=
          Insert_Schedules
            (t ← trip_ids_of db;
             trip_rows (trip_routetype_dict_of db) (frequencies_dict_of db)
               (stop_times_of db) t);
        lines :=
          register
            (t ← trip_ids_of db;
             trip_keys (trip_routetype_dict_of db) (stop_times_of db) t) ∅ |}).
Proof.
  intros Hdup. unfold generate_schedules. rewrite Hdup.
  unfold trip_ids_of, trip_routetype_dict_of, frequencies_dict_of.
  destruct (make_trip_routetype_dict _ _ _) as [trd log1] eqn:Htrd.
  destruct (make_frequencies_dict _ log1) as [fd log2] eqn:Hfd. simpl.
  assert (fd = (make_frequencies_dict (frequencies db) []).1) as Hfd'
    by (by rewrite <- (make_frequencies_dict_log _ log1), Hfd).
  rewrite chain_rows_Ok.
  - by rewrite Hfd', Hfd.
  - apply Forall_forall. intros t ([t' v] & -> & Hv%elem_of_map_to_list)%list_elem_of_fmap.
    by exists v.
  - rewrite Hfd'. apply make_frequencies_dict_nonzero.
Qed.

(** ** Trips without frequencies *)

Lemma last_take_S {A} (l : list A) n :
  (n < length l)%nat → last (take (S n) l) = l !! n.
Proof.
  intros Hn. rewrite last_lookup, length_take, Nat.min_l by lia. simpl.
  apply lookup_take_lt. lia.
Qed.

(** After [n] iterations the running start is the departure of visit
    [n]. *)
Lemma StopsTimes_state_start route_type trip_id lfd stop_times n v :
  stop_times !! n = Some v →
  ∃ s, StopsTimes_state route_type trip_id lfd stop_times n = Some s
       ∧ start_time s = departure_time v.
Proof.
  destruct stop_times as [|st0 rest]; [done|]. intros Hv. simpl.
  eexists. split; [done|]. rewrite StopsTimes_loop_start. simpl.
  destruct n as [|n]; simpl in *; [by simplify_eq|].
  rewrite last_take_S by (by eapply lookup_lt_Some). by rewrite Hv.
Qed.

(** C1. A trip with at least two stop visits and no frequencies: the static
    strategy returns one row per segment, (visit count - 1) rows in all;
    row [i] starts at the running start after [i] iterations, which is the
    departure of visit [i], and ends at the arrival of visit [i + 1]; the
    iteration then moves the running start to the departure of visit
    [i + 1]. *)
Theorem static_rows_of_trip
    (trip_routetype_dict : gmap string sqlval)
    (frequencies_dict : gmap string (list window))
    (stoptimefetch : string → list stop_time)
    (trip_id : string) (route_type : sqlval) (lfd : gmap string lfval) :
  trip_routetype_dict !! trip_id = Some route_type →
  frequencies_dict !! trip_id = None →
  (2 ≤ length (stoptimefetch trip_id))%nat →
  ∃ rows lfd',
    Make_Rows_For_Trip trip_routetype_dict frequencies_dict stoptimefetch
      trip_id lfd = Ok (rows, lfd')
    ∧ length rows = (length (stoptimefetch trip_id) - 1)%nat
    ∧ ∀ i v w,
        stoptimefetch trip_id !! i = Some v →
        stoptimefetch trip_id !! S i = Some w →
        ∃ r s s',
          rows !! i = Some r
          ∧ StopsTimes_state route_type trip_id lfd (stoptimefetch trip_id) i
            = Some s
          ∧ StopsTimes_state route_type trip_id lfd (stoptimefetch trip_id)
              (S i) = Some s'
          ∧ sched_start r = start_time s
          ∧ start_time s = departure_time v
          ∧ sched_end r = arrival_time w
          ∧ sched_trip r = trip_id
          ∧ start_time s' = departure_time w.
Proof.
  intros Hrt Hfd Hlen. unfold Make_Rows_For_Trip.
  rewrite decide_False by (rewrite Hfd; by intros [??]).
  rewrite (Make_StopsTimes_Rows_segments _ _ route_type) by done.
  eexists _, _. split; [done|]. split.
  - by rewrite length_fmap, trip_segments_length.
  - intros i v w Hv Hw.
    destruct (StopsTimes_state_start route_type trip_id lfd _ _ _ Hv)
      as (s & Hs & Hstart).
    destruct (StopsTimes_state_start route_type trip_id lfd _ _ _ Hw)
      as (s' & Hs' & Hstart').
    eexists _, s, s'. rewrite list_lookup_fmap.
    rewrite (trip_segments_lookup _ _ _ _ Hv Hw). simpl.
    by rewrite Hstart.
Qed.

Lemma static_rows_of_trip_witness :
  ∃ rows lfd',
    Make_Rows_For_Trip {["T1" := SInt 3]} ∅ (λ _, demo_stop_times) "T1" ∅
    = Ok (rows, lfd')
    ∧ length rows = 2%nat
    ∧ ∀ i v w,
        demo_stop_times !! i = Some v →
        demo_stop_times !! S i = Some w →
        ∃ r s s',
          rows !! i = Some r
          ∧ StopsTimes_state (SInt 3) "T1" ∅ demo_stop_times i = Some s
          ∧ StopsTimes_state (SInt 3) "T1" ∅ demo_stop_times (S i) = Some s'
          ∧ sched_start r = start_time s
          ∧ start_time s = departure_time v
          ∧ sched_end r = arrival_time w
          ∧ sched_trip r = "T1"
          ∧ start_time s' = departure_time w.
Proof.
  apply (static_rows_of_trip {["T1" := SInt 3]} ∅ (λ _, demo_stop_times)
           "T1" (SInt 3) ∅); [reflexivity|reflexivity|simpl; lia].
Defined.

(** The scenario of the specification: trip T1 over A, B and C gives the
    rows from 0 to 5 and from 10 to 15, and the two keys. *)
Example static_scenario :
  Make_Rows_For_Trip {["T1" := SInt 3]} ∅ (λ _, demo_stop_times) "T1" ∅
  = Ok ([ScheduleRow "A , B , 3" 0 5 "T1"; ScheduleRow "B , C , 3" 10 15 "T1"],
        {["A , B , 3" := LfTrue; "B , C , 3" := LfTrue]}).
Proof. vm_compute. reflexivity. Qed.

(** A trip with one stop visit gives no row and no key. *)
Example single_visit_scenario :
  Make_Rows_For_Trip {["T1" := SInt 3]} ∅ (λ _, [StopTime "A" 0 0]) "T1" ∅
  = Ok ([], ∅).
Proof. reflexivity. Qed.

(** ** Trips with frequencies *)

Lemma window_ticks_spec w :
  headway w ≠ 0 →
  let a := int_round (start_timeofday w) in
  let b := int_round (end_timeofday w) in
  (∀ i, i ∈ window_ticks w
        ↔ ∃ k, 0 ≤ k ∧ i = a + k * headway w
               ∧ if 0 <? headway w then i < b else b < i)
  ∧ NoDup (window_ticks w)
  ∧ Z.of_nat (length (window_ticks w)) = Z.max 0 (- ((a - b) / headway w)).
Proof. intros Hh. by apply range_list_spec. Qed.

(** C2, as amended. A trip with frequencies (no window of the dictionary
    has a zero headway): for every segment and every window, one row per
    start time [i] of the window, from [i + relStart] to [i + relEnd] and
    of the same trip, where [relStart] and [relEnd] are the departure of
    the segment's first visit and the arrival at its second, less the
    first departure of the trip; the start times are the rounded window
    start and every further step of the headway before the rounded window
    end; their number is ⌈(end − start) / headway⌉, or zero when the
    window is empty. *)
Theorem frequency_rows_of_trip
    (trip_routetype_dict : gmap string sqlval)
    (frequencies_dict : gmap string (list window))
    (stoptimefetch : string → list stop_time)
    (trip_id : string) (route_type : sqlval) (windows : list window)
    (lfd : gmap string lfval) :
  trip_routetype_dict !! trip_id = Some route_type →
  frequencies_dict !! trip_id = Some windows →
  Forall (λ w, headway w ≠ 0) windows →
  let stop_times := stoptimefetch trip_id in
  let first := first_departure stop_times in
  ∃ lfd',
    Make_Rows_For_Trip trip_routetype_dict frequencies_dict stoptimefetch
      trip_id lfd
    = Ok (g ← trip_segments stop_times;
          w ← windows;
          (λ i, ScheduleRow (segment_key route_type g)
                            (i + (seg_start g - first))
                            (i + (seg_end g - first)) trip_id)
            <$> window_ticks w,
          lfd')
    ∧ (∀ i v w,
         stop_times !! i = Some v → stop_times !! S i = Some w →
         trip_segments stop_times !! i
         = Some (Segment (stop_id v) (stop_id w) (departure_time v)
                         (arrival_time w)))
    ∧ (∀ v, stop_times !! 0%nat = Some v → first = departure_time v)
    ∧ ∀ w, w ∈ windows →
        let a := int_round (start_timeofday w) in
        let b := int_round (end_timeofday w) in
        (∀ i, i ∈ window_ticks w
              ↔ ∃ k, 0 ≤ k ∧ i = a + k * headway w
                     ∧ if 0 <? headway w then i < b else b < i)
        ∧ NoDup (window_ticks w)
        ∧ Z.of_nat (length (window_ticks w))
          = Z.max 0 (- ((a - b) / headway w)).
Proof.
  intros Hrt Hfd Hnz stop_times first. unfold Make_Rows_For_Trip.
  rewrite decide_True by (by rewrite Hfd).
  rewrite (Make_Frequency_Rows_segments _ _ _ route_type windows) by done.
  eexists. split; [done|]. split; [apply trip_segments_lookup|]. split.
  - unfold first. destruct stop_times; [done|]. by intros v [= ->].
  - intros w Hw. apply window_ticks_spec.
    by apply (proj1 (Forall_forall _ _) Hnz).
Qed.

Lemma frequency_rows_of_trip_witness :
  let stop_times := demo_pair in
  let first := 0 in
  let windows := [Window 0 1200 600] in
  ∃ lfd',
    Make_Rows_For_Trip {["T2" := SInt 3]} {["T2" := windows]}
      (λ _, demo_pair) "T2" ∅
    = Ok (g ← trip_segments stop_times;
          w ← windows;
          (λ i, ScheduleRow (segment_key (SInt 3) g)
                            (i + (seg_start g - first))
                            (i + (seg_end g - first)) "T2")
            <$> window_ticks w,
          lfd')
    ∧ (∀ i v w,
         stop_times !! i = Some v → stop_times !! S i = Some w →
         trip_segments stop_times !! i
         = Some (Segment (stop_id v) (stop_id w) (departure_time v)
                         (arrival_time w)))
    ∧ (∀ v, stop_times !! 0%nat = Some v → first = departure_time v)
    ∧ ∀ w, w ∈ windows →
        let a := int_round (start_timeofday w) in
        let b := int_round (end_timeofday w) in
        (∀ i, i ∈ window_ticks w
              ↔ ∃ k, 0 ≤ k ∧ i = a + k * headway w
                     ∧ if 0 <? headway w then i < b else b < i)
        ∧ NoDup (window_ticks w)
        ∧ Z.of_nat (length (window_ticks w))
          = Z.max 0 (- ((a - b) / headway w)).
Proof.
  apply (frequency_rows_of_trip {["T2" := SInt 3]}
           {["T2" := [Window 0 1200 600]]} (λ _, demo_pair) "T2" (SInt 3)
           [Window 0 1200 600] ∅);
    [reflexivity|reflexivity|repeat constructor; simpl; lia].
Defined.

(** The scenario of the specification: a window from 0 to 1200 with a
    headway of 600 over one segment gives the rows at 0 and at 600. *)
Example frequency_scenario :
  Make_Rows_For_Trip {["T2" := SInt 3]} {["T2" := [Window 0 1200 600]]}
    (λ _, demo_pair) "T2" ∅
  = Ok ([ScheduleRow "A , B , 3" 0 5 "T2"; ScheduleRow "A , B , 3" 600 605 "T2"],
        {["A , B , 3" := LfTrue]}).
Proof. vm_compute. reflexivity. Qed.

(** C2 as stated fails: a window from 0 to 1000 with a headway of 600 gives
    the two rows at 0 and at 600 for the one segment of the trip, and
    ⌊(1000 − 0) / 600⌋ is 1. *)
Lemma frequency_count_not_floor :
  ∃ rows lfd',
    Make_Rows_For_Trip {["T2" := SInt 3]} {["T2" := [Window 0 1000 600]]}
      (λ _, demo_pair) "T2" ∅ = Ok (rows, lfd')
    ∧ rows = [ScheduleRow "A , B , 3" 0 5 "T2";
              ScheduleRow "A , B , 3" 600 605 "T2"]
    ∧ Z.of_nat (length rows)
      ≠ (int_round (end_timeofday (Window 0 1000 600))
         - int_round (start_timeofday (Window 0 1000 600)))
        / headway (Window 0 1000 600).
Proof.
  eexists _, _. split; [vm_compute; reflexivity|]. split; [reflexivity|].
  vm_compute. discriminate.
Qed.

(** ** The ObjectIDs in the dictionary *)

(** The loop over [cur4] puts the ObjectID of each line under its key. *)
Lemma cur4_body_registers maxint lfd row :
  is_Some (split_key (pair_id row) !! 2%nat) →
  ∃ row', cur4_body maxint lfd row
          = Ok (row', <[pair_id row := LfOID (line_OID row)]> lfd)
          ∧ pair_id row' = pair_id row ∧ line_OID row' = line_OID row.
Proof.
  intros [raw Hraw]. unfold cur4_body, line_route_type_of, list_getitem, py_int.
  rewrite Hraw. simpl.
  destruct (parse_int raw) as [z|]; simpl; [|by eexists].
  destruct (fits_int maxint z); simpl; by eexists.
Qed.

(** ** The ObjectIDs in the schedules table *)

Lemma getSourceOID_Ok lfd v :
  getSourceOID lfd v
  = Ok (match lfd !! v with Some x => sql_integer x | None => -1 end).
Proof.
  unfold getSourceOID, getitem. case_decide as Hv.
  - by destruct Hv as [x ->].
  - by destruct (lfd !! v) as [x|]; [destruct Hv; eauto|].
Qed.

Lemma map_each_Ok {A B} (f : A → result B) (g : A → B) l :
  (∀ x, f x = Ok (g x)) → map_each f l = Ok (g <$> l).
Proof.
  intros Hf. induction l as [|x l IH]; simpl; [done|].
  by rewrite Hf, IH.
Qed.

Lemma update_SourceOID_Ok lfd schedules :
  update_SourceOID lfd schedules
  = Ok ((λ r, {| sched_row := sched_row r;
                 SourceOID :=
                   Some (match lfd !! sched_key (sched_row r) with
                         | Some x => sql_integer x
                         | None => -1
                         end) |}) <$> schedules).
Proof.
  unfold update_SourceOID. apply map_each_Ok. intros r.
  by rewrite getSourceOID_Ok.
Qed.

(** C3. The update never raises; it keeps the number and the columns of
    the rows; a row whose key is in [linefeature_dict] gets the identifier
    the dictionary holds for the key (the ObjectID of its line), and a row
    whose key is not there (its line was dropped) gets -1. *)
Theorem update_SourceOID_resolves
    (lfd : gmap string lfval) (schedules : list schedules_record) :
  ∃ schedules',
    update_SourceOID lfd schedules = Ok schedules'
    ∧ length schedules' = length schedules
    ∧ ∀ i r, schedules !! i = Some r →
        ∃ r', schedules' !! i = Some r'
          ∧ sched_row r' = sched_row r
          ∧ (lfd !! sched_key (sched_row r) = None → SourceOID r' = Some (-1))
          ∧ (∀ x, lfd !! sched_key (sched_row r) = Some x →
                  SourceOID r' = Some (sql_integer x))
          ∧ (∀ oid, lfd !! sched_key (sched_row r) = Some (LfOID oid) →
                    SourceOID r' = Some oid).
Proof.
  eexists. split; [apply update_SourceOID_Ok|]. split; [by rewrite length_fmap|].
  intros i r Hr. eexists. rewrite list_lookup_fmap, Hr. simpl.
  split; [done|]. split; [done|].
  split; [by intros ->|]. split; [by intros x ->|by intros oid ->].
Qed.

(** The scenario of the specification: once the key of a line is deleted
    from the dictionary ([del linefeature_dict[key]]), the rows of that
    key get -1 and every other row gets what it got before. *)
Lemma update_SourceOID_dropped lfd key schedules schedules' dropped i r :
  update_SourceOID lfd schedules = Ok schedules' →
  update_SourceOID (delete key lfd) schedules = Ok dropped →
  dropped !! i = Some r →
  if decide (sched_key (sched_row r) = key)
  then SourceOID r = Some (-1)
  else schedules' !! i = Some r.
Proof.
  rewrite !update_SourceOID_Ok. intros [= <-] [= <-].
  rewrite !list_lookup_fmap. destruct (schedules !! i) as [r0|]; [|done].
  simpl. intros [= <-]. simpl. case_decide as Hkey.
  - by rewrite Hkey, lookup_delete_eq.
  - by rewrite lookup_delete_ne.
Qed.

(** C4. Running the update again with the same [linefeature_dict] changes
    no row. *)
Theorem update_SourceOID_idempotent
    (lfd : gmap string lfval) (schedules : list schedules_record) :
  ∃ schedules',
    update_SourceOID lfd schedules = Ok schedules'
    ∧ update_SourceOID lfd schedules' = Ok schedules'.
Proof.
  eexists. split; [apply update_SourceOID_Ok|].
  rewrite update_SourceOID_Ok. f_equal. rewrite <- list_fmap_compose.
  by apply list_fmap_ext.
Qed.

(** ** Keys *)

Lemma append_cons c s t : String c s +:+ t = String c (s +:+ t).
Proof. done. Qed.

Lemma append_nil_r s : s +:+ EmptyString = s.
Proof. induction s as [|c s IH]; [done|]. by rewrite append_cons, IH. Qed.

Lemma append_assoc s1 s2 s3 : (s1 +:+ s2) +:+ s3 = s1 +:+ (s2 +:+ s3).
Proof.
  induction s1 as [|c s1 IH]; [done|]. by rewrite !append_cons, IH.
Qed.

Lemma append_inj_l s t1 t2 : s +:+ t1 = s +:+ t2 → t1 = t2.
Proof. apply String.app_inj. Qed.

Lemma prefix_cons a s1 b s2 :
  String.prefix (String a s1) (String b s2)
  = if ascii_dec a b then String.prefix s1 s2 else false.
Proof. done. Qed.

Lemma comma_free_cons c s :
  comma_free (String c s) = true → c ≠ ","%char ∧ comma_free s = true.
Proof.
  simpl. intros [Hc ?]%andb_prop. split; [|done]. intros ->.
  by rewrite Ascii.eqb_refl in Hc.
Qed.

(** The separator does not start inside a text without a comma, nor at its
    last character when no comma follows. *)
Lemma prefix_sep_comma_free c a rest :
  comma_free (String c a) = true →
  (a = EmptyString → String.prefix "," rest = false) →
  String.prefix " , " (String c (a +:+ rest)) = false.
Proof.
  intros [_ Ha]%comma_free_cons Hrest. rewrite prefix_cons.
  destruct (ascii_dec " " c) as [_|]; [|done].
  destruct a as [|c' a].
  - change (EmptyString +:+ rest) with rest. specialize (Hrest eq_refl).
    destruct rest as [|c' rest]; [done|]. rewrite prefix_cons in *.
    destruct (ascii_dec "," c'); [by destruct rest|done].
  - rewrite append_cons, prefix_cons.
    apply comma_free_cons in Ha as [Hc' _].
    by destruct (ascii_dec "," c').
Qed.

Example split_key_plain : split_key "A , B , 3" = ["A"; "B"; "3"].
Proof. reflexivity. Qed.

Example split_key_overlap : split_key "A , , B , m" = ["A"; ", B"; "m"].
Proof. reflexivity. Qed.

Example split_key_no_separator : split_key "A, B" = ["A, B"].
Proof. reflexivity. Qed.

(** A piece without a comma ends at the first separator after it. *)
Lemma split_scan_piece a piece rest :
  comma_free a = true →
  split_scan " , " 0 piece (a +:+ " , " +:+ rest)
  = (piece +:+ a) :: split_scan " , " 0 EmptyString rest.
Proof.
  revert piece. induction a as [|c a IH]; intros piece Ha.
  - rewrite append_nil_r. by destruct rest.
  - rewrite append_cons.
    unfold split_scan at 1. fold split_scan.
    rewrite prefix_sep_comma_free by done.
    apply comma_free_cons in Ha as [_ Ha].
    rewrite IH by done. by rewrite append_assoc.
Qed.

(** A text without a comma is one piece. *)
Lemma split_scan_last m piece :
  comma_free m = true → split_scan " , " 0 piece m = [piece +:+ m].
Proof.
  revert piece. induction m as [|c m IH]; intros piece Hm.
  - by rewrite append_nil_r.
  - unfold split_scan at 1. fold split_scan.
    rewrite <- (append_nil_r m) at 1.
    rewrite prefix_sep_comma_free by done.
    apply comma_free_cons in Hm as [_ Hm].
    rewrite IH by done. by rewrite append_assoc.
Qed.

Lemma split_key_SourceOIDkey a b m :
  comma_free a = true → comma_free b = true →
  split_key (SourceOIDkey_of a b m) = a :: b :: split_key (fmt_s m).
Proof.
  intros Ha Hb. unfold split_key, SourceOIDkey_of.
  rewrite (split_scan_piece a) by done.
  by rewrite (split_scan_piece b) by done.
Qed.

(** Keys of stops without commas are equal only for equal stops and route
    types written the same. *)
Lemma SourceOIDkey_of_inj a b m a' b' m' :
  comma_free a = true → comma_free b = true →
  comma_free a' = true → comma_free b' = true →
  SourceOIDkey_of a b m = SourceOIDkey_of a' b' m' ↔
  a = a' ∧ b = b' ∧ fmt_s m = fmt_s m'.
Proof.
  intros Ha Hb Ha' Hb'. split.
  - intros Hkey. pose proof (f_equal split_key Hkey) as Hsplit.
    rewrite !split_key_SourceOIDkey in Hsplit by done.
    injection Hsplit as -> -> _. split; [done|]. split; [done|].
    unfold SourceOIDkey_of in Hkey.
    by do 4 apply append_inj_l in Hkey.
  - intros (-> & -> & Hm). unfold SourceOIDkey_of. by rewrite Hm.
Qed.

(** ** The dictionary of line features *)

Lemma register_lookup keys lfd key :
  register keys lfd !! key
  = if decide (key ∈ keys) then Some LfTrue else lfd !! key.
Proof.
  revert lfd. induction keys as [|k keys IH]; intros lfd.
  - case_decide as Hin; [by apply elem_of_nil in Hin|done].
  - change (register (k :: keys) lfd)
      with (register keys (<[k := LfTrue]> lfd)).
    rewrite IH. destruct (decide (key ∈ keys)) as [Hin|Hnin].
    + by rewrite decide_True by (by right).
    + destruct (decide (key = k)) as [->|Hne].
      * rewrite decide_True by left. by rewrite lookup_insert_eq.
      * rewrite decide_False by (by intros [?|?]%elem_of_cons).
        by rewrite lookup_insert_ne.
Qed.

(** The keys of a run are the keys of the segments of its trips. *)
Lemma run_keys_elem db key :
  key ∈ (t ← trip_ids_of db;
         trip_keys (trip_routetype_dict_of db) (stop_times_of db) t)
  ↔ ∃ t g, t ∈ (trips db).*1
           ∧ g ∈ trip_segments (stop_times_of db t)
           ∧ key = segment_key (trip_route_type db t) g.
Proof.
  rewrite list_elem_of_bind. unfold trip_keys, trip_route_type. split.
  - intros (t & (g & -> & Hg)%list_elem_of_fmap & Ht%trip_ids_of_elem).
    by exists t, g.
  - intros (t & g & Ht%trip_ids_of_elem & Hg & ->). exists t.
    split; [|done]. apply list_elem_of_fmap. by exists g.
Qed.

(** C5, as amended. After a run that was not stopped, [linefeature_dict]
    has one entry, [True], for each key text produced by a segment of a
    trip, however many segments, trips and rows produce it, and no other
    entry. Two triples of from-stop, to-stop and route type have the same
    key text, hence the same entry, when they are equal; for stop
    identifiers without a comma they have the same key text only when the
    from-stops are equal, the to-stops are equal and the route types are
    written the same. *)
Theorem linefeature_dict_entries (db : tables) :
  tripDuplicateFetch (trips db) = [] →
  (∀ key,
     let produced_by_segment :=
       ∃ t g, t ∈ (trips db).*1
              ∧ g ∈ trip_segments (stop_times_of db t)
              ∧ key = segment_key (trip_route_type db t) g in
     (produced_by_segment →
      lines (generate_schedules db).2 !! key = Some LfTrue)
     ∧ (¬ produced_by_segment →
        lines (generate_schedules db).2 !! key = None))
  ∧ (∀ a b m a' b' m',
       comma_free a = true → comma_free b = true →
       comma_free a' = true → comma_free b' = true →
       SourceOIDkey_of a b m = SourceOIDkey_of a' b' m'
       ↔ a = a' ∧ b = b' ∧ fmt_s m = fmt_s m').
Proof.
  intros Hdup. split; [|apply SourceOIDkey_of_inj].
  intros key. rewrite generate_schedules_rows by done. simpl.
  rewrite register_lookup, lookup_empty, <- run_keys_elem.
  split; intros ?; [by rewrite decide_True|by rewrite decide_False].
Qed.

Lemma linefeature_dict_entries_witness :
  (∀ key,
     let produced_by_segment :=
       ∃ t g, t ∈ (trips collide_db).*1
              ∧ g ∈ trip_segments (stop_times_of collide_db t)
              ∧ key = segment_key (trip_route_type collide_db t) g in
     (produced_by_segment →
      lines (generate_schedules collide_db).2 !! key = Some LfTrue)
     ∧ (¬ produced_by_segment →
        lines (generate_schedules collide_db).2 !! key = None))
  ∧ (∀ a b m a' b' m',
       comma_free a = true → comma_free b = true →
       comma_free a' = true → comma_free b' = true →
       SourceOIDkey_of a b m = SourceOIDkey_of a' b' m'
       ↔ a = a' ∧ b = b' ∧ fmt_s m = fmt_s m').
Proof. apply (linefeature_dict_entries collide_db). vm_compute. reflexivity. Defined.

(** C5 as stated fails: the segment from ["A , B"] to ["C"] and the segment
    from ["A"] to ["B , C"], both of route type 3, are different triples
    with one key text, and the run over the two trips ends with one entry
    in [linefeature_dict]. *)
Lemma distinct_edges_one_entry :
  ("A , B", "C", SInt 3) ≠ ("A", "B , C", SInt 3)
  ∧ SourceOIDkey_of "A , B" "C" (SInt 3) = SourceOIDkey_of "A" "B , C" (SInt 3)
  ∧ (generate_schedules collide_db).1 = None
  ∧ trip_segments (stop_times_of collide_db "T1") = [Segment "A , B" "C" 0 5]
  ∧ trip_segments (stop_times_of collide_db "T2") = [Segment "A" "B , C" 0 5]
  ∧ lines (generate_schedules collide_db).2 = {["A , B , C , 3" := LfTrue]}
  ∧ size (lines (generate_schedules collide_db).2) = 1%nat
  ∧ sched_row <$> schedules (generate_schedules collide_db).2
    ≡ₚ [ScheduleRow "A , B , C , 3" 0 5 "T1";
        ScheduleRow "A , B , C , 3" 0 5 "T2"].
Proof.
  split; [discriminate|]. do 5 (split; [vm_compute; reflexivity|]).
  split; [vm_compute; reflexivity|].
  vm_compute. apply perm_swap || reflexivity.
Qed.

(** ** Keys and rows *)

(** A window has a start time when its rounded start is before its
    rounded end, in the direction of the headway. *)
Lemma window_ticks_nonempty w :
  headway w ≠ 0 →
  window_ticks w ≠ []
  ↔ if 0 <? headway w
    then int_round (start_timeofday w) < int_round (end_timeofday w)
    else int_round (end_timeofday w) < int_round (start_timeofday w).
Proof.
  intros Hh. destruct (window_ticks_spec w Hh) as (Helem & _ & _). split.
  - destruct (window_ticks w) as [|i ticks] eqn:Hticks; [done|]. intros _.
    destruct (proj1 (Helem i) ltac:(left)) as (k & Hk & -> & Hi).
    destruct (0 <? headway w) eqn:Hsign; nia.
  - intros Hlt Hnil.
    assert (int_round (start_timeofday w) ∈ window_ticks w) as Hin.
    { apply Helem. exists 0. split; [done|]. split; [lia|done]. }
    rewrite Hnil in Hin. by apply elem_of_nil in Hin.
Qed.

(** The keys of the rows of a trip: the keys of its segments when the trip
    has no frequencies, or has a window with a start time. *)
Lemma trip_rows_key trd fd stf t key :
  (∃ r, r ∈ trip_rows trd fd stf t ∧ sched_key r = key)
  ↔ ∃ g, g ∈ trip_segments (stf t)
         ∧ key = segment_key (default (SInt 100) (trd !! t)) g
         ∧ (fd !! t = None
            ∨ ∃ windows w, fd !! t = Some windows ∧ w ∈ windows
                           ∧ window_ticks w ≠ []).
Proof.
  unfold trip_rows. destruct (fd !! t) as [windows|] eqn:Hfd; split.
  - intros (r & (g & Hr & Hg)%list_elem_of_bind & <-).
    apply list_elem_of_bind in Hr as (w & Hr & Hw).
    apply list_elem_of_fmap in Hr as (i & -> & Hi).
    exists g. split; [done|]. split; [done|]. right. exists windows, w.
    split; [done|]. split; [done|]. intros Hnil. rewrite Hnil in Hi.
    by apply elem_of_nil in Hi.
  - intros (g & Hg & -> & [?|(ws & w & [= <-] & Hw & Hticks)]); [done|].
    destruct (window_ticks w) as [|i ticks] eqn:Hi; [done|].
    eexists (ScheduleRow _ _ _ _). split; [|done].
    apply list_elem_of_bind. exists g. split; [|done].
    apply list_elem_of_bind. exists w. split; [|done].
    apply list_elem_of_fmap. exists i. split; [done|]. rewrite Hi. left.
  - intros (r & (g & -> & Hg)%list_elem_of_fmap & <-).
    exists g. split; [done|]. split; [done|]. by left.
  - intros (g & Hg & -> & _). eexists.
    split; [by apply (list_elem_of_fmap_2 (static_row _ t))|done].
Qed.

(** C6, as amended. After the insertion of the schedules of a run, every
    key in [linefeature_dict] is the key of a segment of a trip; and a key
    has a row in [schedules] exactly when it is the key of a segment of a
    trip that has no frequencies, or that has a window with at least one
    start time: a window whose rounded start is before its rounded end in
    the direction of its headway. *)
Theorem registered_keys_rows (db : tables) :
  tripDuplicateFetch (trips db) = [] →
  (∀ key, is_Some (lines (generate_schedules db).2 !! key) ↔
     ∃ t g, t ∈ (trips db).*1
            ∧ g ∈ trip_segments (stop_times_of db t)
            ∧ key = segment_key (trip_route_type db t) g)
  ∧ (∀ key,
       (∃ r, r ∈ schedules (generate_schedules db).2
             ∧ sched_key (sched_row r) = key) ↔
       ∃ t g, t ∈ (trips db).*1
              ∧ g ∈ trip_segments (stop_times_of db t)
              ∧ key = segment_key (trip_route_type db t) g
              ∧ (frequencies_dict_of db !! t = None
                 ∨ ∃ windows w,
                     frequencies_dict_of db !! t = Some windows
                     ∧ w ∈ windows ∧ window_ticks w ≠ []))
  ∧ (∀ t windows w,
       frequencies_dict_of db !! t = Some windows → w ∈ windows →
       headway w ≠ 0
       ∧ (window_ticks w ≠ []
          ↔ if 0 <? headway w
            then int_round (start_timeofday w) < int_round (end_timeofday w)
            else int_round (end_timeofday w)
                 < int_round (start_timeofday w))).
Proof.
  intros Hdup. rewrite generate_schedules_rows by done. simpl.
  split; [|split].
  - intros key. rewrite register_lookup, lookup_empty, <- run_keys_elem.
    case_decide; split; done || by intros [??].
  - intros key. unfold Insert_Schedules. split.
    + intros (r & (r0 & -> & Hr0)%list_elem_of_fmap & Hkey). simpl in Hkey.
      apply list_elem_of_bind in Hr0 as (t & Hr0 & Ht%trip_ids_of_elem).
      destruct (proj1 (trip_rows_key _ _ _ t key) ltac:(by exists r0))
        as (g & Hg & -> & Hrows).
      by exists t, g.
    + intros (t & g & Ht & Hg & -> & Hrows).
      destruct (proj2 (trip_rows_key (trip_routetype_dict_of db)
                         (frequencies_dict_of db) (stop_times_of db) t
                         (segment_key (trip_route_type db t) g))
                  ltac:(by exists g)) as (r & Hr & Hkey).
      exists (SchedulesRecord r None). split; [|done].
      apply (list_elem_of_fmap_2 (λ r, SchedulesRecord r None)).
      apply list_elem_of_bind. exists t. split; [done|].
      by apply trip_ids_of_elem.
  - intros t windows w Hfd Hw.
    assert (headway w ≠ 0) as Hh.
    { pose proof (make_frequencies_dict_nonzero (frequencies db) [] t windows
                    Hfd) as Hnz.
      by apply (proj1 (Forall_forall _ _) Hnz). }
    split; [done|]. by apply window_ticks_nonempty.
Qed.

Lemma registered_keys_rows_witness :
  let db := zero_headway_db in
  (∀ key, is_Some (lines (generate_schedules db).2 !! key) ↔
     ∃ t g, t ∈ (trips db).*1
            ∧ g ∈ trip_segments (stop_times_of db t)
            ∧ key = segment_key (trip_route_type db t) g)
  ∧ (∀ key,
       (∃ r, r ∈ schedules (generate_schedules db).2
             ∧ sched_key (sched_row r) = key) ↔
       ∃ t g, t ∈ (trips db).*1
              ∧ g ∈ trip_segments (stop_times_of db t)
              ∧ key = segment_key (trip_route_type db t) g
              ∧ (frequencies_dict_of db !! t = None
                 ∨ ∃ windows w,
                     frequencies_dict_of db !! t = Some windows
                     ∧ w ∈ windows ∧ window_ticks w ≠ []))
  ∧ (∀ t windows w,
       frequencies_dict_of db !! t = Some windows → w ∈ windows →
       headway w ≠ 0
       ∧ (window_ticks w ≠ []
          ↔ if 0 <? headway w
            then int_round (start_timeofday w) < int_round (end_timeofday w)
            else int_round (end_timeofday w)
                 < int_round (start_timeofday w))).
Proof.
  apply (registered_keys_rows zero_headway_db). vm_compute. reflexivity.
Defined.

(** C6 as stated fails: a trip from A to B with the one window from 100 to
    100 registers the key of its segment and inserts no row. *)
Lemma registered_key_without_row :
  (generate_schedules empty_window_db).1 = None
  ∧ lines (generate_schedules empty_window_db).2 !! "A , B , 3" = Some LfTrue
  ∧ schedules (generate_schedules empty_window_db).2 = []
  ∧ ¬ ∃ r, r ∈ schedules (generate_schedules empty_window_db).2
           ∧ sched_key (sched_row r) = "A , B , 3".
Proof.
  split; [vm_compute; reflexivity|]. split; [vm_compute; reflexivity|].
  assert (schedules (generate_schedules empty_window_db).2 = []) as ->
    by (vm_compute; reflexivity).
  split; [done|]. by intros (r & []%elem_of_nil & _).
Qed.

(** ** Repeated trip identifiers stop the run *)


(** A trips table with trip T twice: the run stops with the three
    messages and nothing else. *)
Example duplicate_run :
  generate_schedules duplicate_db
  = (Some CustomError,
     {| log := [invalid_trips_error;
                AddError "There are 2 instances of the trip_id value 'T'.";
                failed_error];
        schedules := [];
        lines := ∅ |}).
Proof. vm_compute. reflexivity. Qed.

(** ** Windows with a zero headway *)

Lemma frequencies_dict_of_drop db :
  frequencies_dict_of (drop_zero_headways db) = frequencies_dict_of db.
Proof.
  unfold frequencies_dict_of. simpl.
  by rewrite <- make_frequencies_dict_filter.
Qed.

(** C9. In a run that the trips table does not stop, a [frequencies] row
    with a zero headway raises nothing: the run finishes, it has recorded
    the warning of the row, no window of the row is in [frequencies_dict]
    while every other row is kept in order, and the rows of [schedules]
    and the keys of [linefeature_dict] are those of the run over the
    tables without the zero headway rows. *)
Theorem zero_headway_rows_discarded (db : tables) :
  tripDuplicateFetch (trips db) = [] →
  let status := (generate_schedules db).1 in
  let out := (generate_schedules db).2 in
  status = None
  ∧ (∀ f, f ∈ frequencies db → freq_headway_secs f = 0 →
          zero_headway_warning (freq_trip_id f) ∈ log out)
  ∧ (∀ t, frequencies_dict_of db !! t
          = entry_of
              (window_of
                 <$> filter (λ f, freq_trip_id f = t ∧ freq_headway_secs f ≠ 0)
                       (frequencies db)))
  ∧ (∀ t windows, frequencies_dict_of db !! t = Some windows →
                  Forall (λ w, headway w ≠ 0) windows)
  ∧ schedules out = schedules (generate_schedules (drop_zero_headways db)).2
  ∧ lines out = lines (generate_schedules (drop_zero_headways db)).2.
Proof.
  intros Hdup. simpl. rewrite !generate_schedules_rows by done. simpl.
  split; [done|]. split; [|split; [|split]].
  - intros f Hf Hz.
    rewrite (proj2 (make_frequencies_dict_spec _ _)), elem_of_app. right.
    apply (list_elem_of_fmap_2 (zero_headway_warning ∘ freq_trip_id)).
    by apply list_elem_of_filter.
  - intros t. apply make_frequencies_dict_spec.
  - apply make_frequencies_dict_nonzero.
  - by rewrite frequencies_dict_of_drop.
Qed.

Lemma zero_headway_rows_discarded_witness :
  let db := zero_headway_db in
  let status := (generate_schedules db).1 in
  let out := (generate_schedules db).2 in
  status = None
  ∧ (∀ f, f ∈ frequencies db → freq_headway_secs f = 0 →
          zero_headway_warning (freq_trip_id f) ∈ log out)
  ∧ (∀ t, frequencies_dict_of db !! t
          = entry_of
              (window_of
                 <$> filter (λ f, freq_trip_id f = t ∧ freq_headway_secs f ≠ 0)
                       (frequencies db)))
  ∧ (∀ t windows, frequencies_dict_of db !! t = Some windows →
                  Forall (λ w, headway w ≠ 0) windows)
  ∧ schedules out = schedules (generate_schedules (drop_zero_headways db)).2
  ∧ lines out = lines (generate_schedules (drop_zero_headways db)).2.
Proof.
  apply (zero_headway_rows_discarded zero_headway_db). vm_compute. reflexivity.
Defined.

(** C10. A trip all of whose [frequencies] rows have a zero headway is not
    in [frequencies_dict] once the rows are skipped, so that
    [Make_Rows_For_Trip] takes the branch of [Make_StopsTimes_Rows]: the
    trip gets one row per segment, at the times of its stop visits, and
    these rows are in [schedules], although the recorded warning says that
    trips with this id will not be included. *)
Theorem zero_headway_trip_is_static (db : tables) (t : string) :
  tripDuplicateFetch (trips db) = [] →
  t ∈ (trips db).*1 →
  (∃ f, f ∈ frequencies db ∧ freq_trip_id f = t) →
  (∀ f, f ∈ frequencies db → freq_trip_id f = t → freq_headway_secs f = 0) →
  let out := (generate_schedules db).2 in
  let stop_times := stop_times_of db t in
  frequencies_dict_of db !! t = None
  ∧ (∀ lfd,
       Make_Rows_For_Trip (trip_routetype_dict_of db) (frequencies_dict_of db)
         (stop_times_of db) t lfd
       = Make_StopsTimes_Rows (trip_routetype_dict_of db) t stop_times lfd)
  ∧ (∀ lfd,
       Make_Rows_For_Trip (trip_routetype_dict_of db) (frequencies_dict_of db)
         (stop_times_of db) t lfd
       = Ok ((λ g, ScheduleRow (segment_key (trip_route_type db t) g)
                               (seg_start g) (seg_end g) t)
               <$> trip_segments stop_times,
             register (segment_key (trip_route_type db t)
                         <$> trip_segments stop_times) lfd))
  ∧ length (trip_segments stop_times) = (length stop_times - 1)%nat
  ∧ (generate_schedules db).1 = None
  ∧ AddWarning ("Trip_id " +:+ t +:+ " in your frequencies.txt file has a headway of 0 seconds. This is invalid, so trips with this id will not be included in your network.")
    ∈ log out
  ∧ (∀ g, g ∈ trip_segments stop_times →
          {| sched_row := ScheduleRow (segment_key (trip_route_type db t) g)
                                      (seg_start g) (seg_end g) t;
             SourceOID := None |} ∈ schedules out).
Proof.
  intros Hdup Ht (f0 & Hf0 & Hf0t) Hzero out stop_times.
  assert (frequencies_dict_of db !! t = None) as Hfd.
  { unfold frequencies_dict_of.
    rewrite (proj1 (make_frequencies_dict_spec _ _)). unfold trip_windows.
    destruct (filter _ (frequencies db)) as [|f ?] eqn:Hfilter; [done|].
    assert (f ∈ filter (λ f, freq_trip_id f = t ∧ freq_headway_secs f ≠ 0)
                  (frequencies db)) as Hin by (rewrite Hfilter; left).
    apply list_elem_of_filter in Hin as [[? Hnz] ?].
    destruct Hnz. by apply Hzero. }
  assert (is_Some (trip_routetype_dict_of db !! t)) as [route_type Hrt]
    by (by apply make_trip_routetype_dict_dom).
  assert (trip_route_type db t = route_type) as Hrt'
    by (unfold trip_route_type; by rewrite Hrt).
  assert (∀ lfd,
       Make_Rows_For_Trip (trip_routetype_dict_of db) (frequencies_dict_of db)
         (stop_times_of db) t lfd
       = Make_StopsTimes_Rows (trip_routetype_dict_of db) t stop_times lfd)
    as Hstatic.
  { intros lfd. unfold Make_Rows_For_Trip.
    by rewrite decide_False by (rewrite Hfd; by intros [??]). }
  split; [done|]. split; [done|]. split.
  { intros lfd. rewrite Hstatic, Hrt'.
    by apply Make_StopsTimes_Rows_segments. }
  split; [apply trip_segments_length|].
  subst out. rewrite generate_schedules_rows by done. simpl.
  split; [done|]. split.
  - rewrite (proj2 (make_frequencies_dict_spec _ _)), elem_of_app. right.
    apply list_elem_of_fmap. exists f0. split; [by rewrite <- Hf0t|].
    apply list_elem_of_filter. split; [by apply Hzero|done].
  - intros g Hg. unfold Insert_Schedules.
    apply (list_elem_of_fmap_2 (λ r, SchedulesRecord r None)).
    apply list_elem_of_bind. exists t. split; [|by apply trip_ids_of_elem].
    unfold trip_rows. rewrite Hfd, Hrt, Hrt'. simpl.
    by apply (list_elem_of_fmap_2 (static_row route_type t)).
Qed.

Lemma zero_headway_trip_is_static_witness :
  let db := zero_headway_db in
  let t := "U" in
  let out := (generate_schedules db).2 in
  let stop_times := stop_times_of db t in
  frequencies_dict_of db !! t = None
  ∧ (∀ lfd,
       Make_Rows_For_Trip (trip_routetype_dict_of db) (frequencies_dict_of db)
         (stop_times_of db) t lfd
       = Make_StopsTimes_Rows (trip_routetype_dict_of db) t stop_times lfd)
  ∧ (∀ lfd,
       Make_Rows_For_Trip (trip_routetype_dict_of db) (frequencies_dict_of db)
         (stop_times_of db) t lfd
       = Ok ((λ g, ScheduleRow (segment_key (trip_route_type db t) g)
                               (seg_start g) (seg_end g) t)
               <$> trip_segments stop_times,
             register (segment_key (trip_route_type db t)
                         <$> trip_segments stop_times) lfd))
  ∧ length (trip_segments stop_times) = (length stop_times - 1)%nat
  ∧ (generate_schedules db).1 = None
  ∧ AddWarning ("Trip_id " +:+ t +:+ " in your frequencies.txt file has a headway of 0 seconds. This is invalid, so trips with this id will not be included in your network.")
    ∈ log out
  ∧ (∀ g, g ∈ trip_segments stop_times →
          {| sched_row := ScheduleRow (segment_key (trip_route_type db t) g)
                                      (seg_start g) (seg_end g) t;
             SourceOID := None |} ∈ schedules out).
Proof.
  apply (zero_headway_trip_is_static zero_headway_db "U").
  - vm_compute. reflexivity.
  - simpl. right. left.
  - exists (FreqRow "U" 0 1200 0). simpl.
    split; [right; right; left|reflexivity].
  - simpl. intros f Hf Ht.
    repeat (apply elem_of_cons in Hf as [Hf|Hf];
            [subst f; simpl in *; done|]).
    by apply elem_of_nil in Hf.
Defined.

(** The run over a trip U whose only window has a zero headway, and a trip
    T with one window of 600 seconds beside one of zero. *)
Example zero_headway_run :
  sched_row <$> filter (λ r, sched_trip (sched_row r) = "U")
                  (schedules (generate_schedules zero_headway_db).2)
  = [ScheduleRow "A , B , 3" 0 5 "U"; ScheduleRow "B , C , 3" 10 15 "U"].
Proof. vm_compute. reflexivity. Qed.

(** ** Reading a route type back from a key *)

Lemma is_digit_plain c :
  is_digit c = true →
  is_space c = false ∧ c ≠ ","%char ∧ c ≠ "-"%char ∧ c ≠ "+"%char.
Proof.
  destruct c as [[] [] [] [] [] [] [] []]; simpl; intros ?;
    try discriminate; repeat split; discriminate.
Qed.

Lemma string_of_uint_digits d : digits_only (NilEmpty.string_of_uint d) = true.
Proof. induction d; simpl; by rewrite ?IHd. Qed.

Lemma NilZero_string_of_uint_digits d :
  digits_only (NilZero.string_of_uint d) = true
  ∧ NilZero.string_of_uint d ≠ EmptyString.
Proof.
  destruct d; simpl; rewrite ?string_of_uint_digits; done.
Qed.

Lemma digits_only_comma_free s : digits_only s = true → comma_free s = true.
Proof.
  induction s as [|c s IH]; simpl; [done|].
  intros [Hc ?]%andb_prop. apply is_digit_plain in Hc as (_ & Hc & _).
  rewrite IH by done. by destruct (Ascii.eqb_spec c ",").
Qed.

Lemma digits_only_lstrip s : digits_only s = true → lstrip s = s.
Proof.
  destruct s as [|c s]; simpl; [done|].
  intros [Hc ?]%andb_prop. apply is_digit_plain in Hc as (-> & _). done.
Qed.

Lemma digits_only_rstrip s : digits_only s = true → rstrip s = s.
Proof.
  induction s as [|c s IH]; simpl; [done|].
  intros [Hc ?]%andb_prop. apply is_digit_plain in Hc as (-> & _).
  rewrite IH by done. by destruct s.
Qed.

Example parse_int_examples :
  parse_int " 12 " = Some 12 ∧ parse_int "-7" = Some (-7)
  ∧ parse_int "+5" = Some 5 ∧ parse_int "007" = Some 7
  ∧ parse_int "tram" = None ∧ parse_int "3.0" = None
  ∧ parse_int "1 2" = None ∧ parse_int "-" = None
  ∧ parse_int EmptyString = None.
Proof. repeat split; reflexivity. Qed.

(** A text that starts with a digit is read without a sign. *)
Lemma parse_int_digits s :
  digits_only s = true → s ≠ EmptyString →
  parse_int s = Z.of_uint <$> NilZero.uint_of_string s.
Proof.
  intros Hs Hne. unfold parse_int.
  rewrite digits_only_lstrip, digits_only_rstrip by done.
  destruct s as [|c s]; [done|]. simpl in Hs.
  apply andb_prop in Hs as [Hc _].
  by destruct c as [[] [] [] [] [] [] [] []].
Qed.

Lemma parse_int_minus_digits s :
  digits_only s = true →
  parse_int (String "-" s) = Z.opp <$> (Z.of_uint <$> NilZero.uint_of_string s).
Proof.
  intros Hs. unfold parse_int.
  change (lstrip (String "-" s)) with (String "-" s).
  assert (rstrip (String "-" s) = String "-" s) as ->; [|done].
  simpl. rewrite digits_only_rstrip by done. by destruct s.
Qed.

Lemma uint_of_string_of_uint d :
  Z.of_uint <$> NilZero.uint_of_string (NilZero.string_of_uint d)
  = Some (Z.of_uint d).
Proof.
  destruct d; try (by rewrite NilZero.usu). done.
Qed.

(** [int(str(z))] is [z]. *)
Lemma parse_int_str_of_Z z : parse_int (str_of_Z z) = Some z.
Proof.
  unfold str_of_Z. pose proof (DecimalZ.of_to z) as Hz.
  destruct (Z.to_int z) as [d|d]; simpl in *.
  - destruct (NilZero_string_of_uint_digits d).
    rewrite parse_int_digits, uint_of_string_of_uint by done.
    by rewrite <- Hz.
  - destruct (NilZero_string_of_uint_digits d).
    rewrite parse_int_minus_digits, uint_of_string_of_uint by done.
    by rewrite <- Hz.
Qed.

Lemma str_of_Z_comma_free z : comma_free (str_of_Z z) = true.
Proof.
  unfold str_of_Z. destruct (Z.to_int z) as [d|d]; simpl.
  - apply digits_only_comma_free, NilZero_string_of_uint_digits.
  - apply digits_only_comma_free, NilZero_string_of_uint_digits.
Qed.

(** ** The route type of a line *)




(** * Further properties of the code *)

(** ** What [Make_Rows_For_Trip] returns and when it raises *)

Lemma has_zero_headway_false windows :
  has_zero_headway windows = false ↔ Forall (λ w, headway w ≠ 0) windows.
Proof.
  unfold has_zero_headway. induction windows as [|w windows IH]; simpl.
  - split; [constructor|done].
  - rewrite orb_false_iff, IH, Forall_cons, Z.eqb_neq. done.
Qed.

Lemma windows_loop_zero key trip_id a b acc windows :
  has_zero_headway windows = true →
  for_each (λ acc w, let! new := window_rows key trip_id a b w in
                     Ok (acc ++ new)) acc windows
  = Raise ValueError.
Proof.
  unfold has_zero_headway. revert acc.
  induction windows as [|w windows IH]; intros acc; simpl; [done|].
  destruct (Z.eqb_spec (headway w) 0) as [Hz|Hnz]; simpl.
  - intros _. unfold window_rows. by rewrite Hz.
  - intros Hex. rewrite window_rows_Ok by done. simpl. by apply IH.
Qed.

(** X1. The outcome of [Make_Rows_For_Trip] in every case. A trip with
    fewer than two stop visits gives no row and leaves [linefeature_dict]
    alone, whatever the dictionaries hold. Otherwise a trip that is not in
    [trip_routetype_dict] is a [KeyError]; a trip with frequencies one of
    which has a zero headway is the [ValueError] of [range]; and any other
    trip gives the rows of its segments and registers their keys. *)
Theorem Make_Rows_For_Trip_outcome
    (trip_routetype_dict : gmap string sqlval)
    (frequencies_dict : gmap string (list window))
    (stoptimefetch : string → list stop_time)
    (trip_id : string) (lfd : gmap string lfval) :
  Make_Rows_For_Trip trip_routetype_dict frequencies_dict stoptimefetch
    trip_id lfd
  = if (length (stoptimefetch trip_id) <? 2)%nat then Ok ([], lfd)
    else
      match trip_routetype_dict !! trip_id with
      | None => Raise KeyError
      | Some route_type =>
          match frequencies_dict !! trip_id with
          | Some windows =>
              if has_zero_headway windows then Raise ValueError
              else
                Ok (g ← trip_segments (stoptimefetch trip_id);
                    frequency_rows route_type trip_id
                      (first_departure (stoptimefetch trip_id)) windows g,
                    register (segment_key route_type
                                <$> trip_segments (stoptimefetch trip_id)) lfd)
          | None =>
              Ok (static_row route_type trip_id
                    <$> trip_segments (stoptimefetch trip_id),
                  register (segment_key route_type
                              <$> trip_segments (stoptimefetch trip_id)) lfd)
          end
      end.
Proof.
  unfold Make_Rows_For_Trip.
  destruct (length (stoptimefetch trip_id) <? 2)%nat eqn:Hlen.
  - unfold Make_Frequency_Rows, Make_StopsTimes_Rows. rewrite Hlen.
    by case_decide.
  - destruct (trip_routetype_dict !! trip_id) as [route_type|] eqn:Hrt.
    + destruct (frequencies_dict !! trip_id) as [windows|] eqn:Hfd.
      * rewrite decide_True by done.
        destruct (has_zero_headway windows) eqn:Hz.
        -- unfold Make_Frequency_Rows, getitem. rewrite Hlen, Hrt. simpl.
           destruct (stoptimefetch trip_id) as [|st0 [|st1 rest]]; [done..|].
           simpl. unfold Frequency_body at 1, getitem. rewrite Hfd. simpl.
           by rewrite windows_loop_zero.
        -- apply Make_Frequency_Rows_segments; [done..|].
           by apply has_zero_headway_false.
      * rewrite decide_False by (by intros [??]).
        by apply Make_StopsTimes_Rows_segments.
    + unfold Make_Frequency_Rows, Make_StopsTimes_Rows, getitem.
      rewrite Hlen, Hrt. by case_decide.
Qed.

(** ** The two ways of making rows, compared *)

Lemma frequency_rows_shift route_type trip_id first windows g :
  frequency_rows route_type trip_id first windows g
  = w ← windows;
    (λ i, shift_row (i - first) (static_row route_type trip_id g))
      <$> window_ticks w.
Proof.
  unfold frequency_rows. apply list_bind_ext; [|done]. intros w.
  apply list_fmap_ext. intros _ i _.
  unfold shift_row, static_row. simpl. f_equal; lia.
Qed.

Lemma bind_fmap_list {A B C} (f : A → B) (k : B → list C) (l : list A) :
  (f <$> l) ≫= k = l ≫= (λ x, k (f x)).
Proof.
  induction l as [|x l IH]; [done|].
  rewrite fmap_cons, !bind_cons. by rewrite IH.
Qed.

(** X2. For a trip with frequencies, [Make_Frequency_Rows] registers the
    keys that [Make_StopsTimes_Rows] registers for the same stop times, and
    its rows are the rows of [Make_StopsTimes_Rows], each repeated for
    every start time [i] of every window and moved by [i] less the first
    departure of the trip. *)
Theorem frequency_rows_are_shifted_static_rows
    (trip_routetype_dict : gmap string sqlval)
    (frequencies_dict : gmap string (list window))
    (trip_id : string) (route_type : sqlval) (windows : list window)
    (stop_times : list stop_time) (lfd : gmap string lfval) :
  trip_routetype_dict !! trip_id = Some route_type →
  frequencies_dict !! trip_id = Some windows →
  Forall (λ w, headway w ≠ 0) windows →
  ∃ rows lfd',
    Make_StopsTimes_Rows trip_routetype_dict trip_id stop_times lfd
    = Ok (rows, lfd')
    ∧ Make_Frequency_Rows trip_routetype_dict frequencies_dict trip_id
        stop_times lfd
      = Ok (r ← rows;
            w ← windows;
            (λ i, shift_row (i - first_departure stop_times) r)
              <$> window_ticks w,
            lfd').
Proof.
  intros Hrt Hfd Hnz. eexists _, _.
  split; [by apply Make_StopsTimes_Rows_segments|].
  rewrite (Make_Frequency_Rows_segments _ _ _ route_type windows) by done.
  f_equal. f_equal. rewrite bind_fmap_list. apply list_bind_ext; [|done].
  intros g. apply frequency_rows_shift.
Qed.

Lemma frequency_rows_are_shifted_static_rows_witness :
  ∃ rows lfd',
    Make_StopsTimes_Rows {["T2" := SInt 3]} "T2" demo_stop_times ∅
    = Ok (rows, lfd')
    ∧ Make_Frequency_Rows {["T2" := SInt 3]} {["T2" := [Window 0 1200 600]]}
        "T2" demo_stop_times ∅
      = Ok (r ← rows;
            w ← [Window 0 1200 600];
            (λ i, shift_row (i - first_departure demo_stop_times) r)
              <$> window_ticks w,
            lfd').
Proof.
  apply (frequency_rows_are_shifted_static_rows {["T2" := SInt 3]}
           {["T2" := [Window 0 1200 600]]} "T2" (SInt 3)
           [Window 0 1200 600] demo_stop_times ∅);
    [reflexivity|reflexivity|repeat constructor; simpl; lia].
Defined.

(** ** Rows in time *)

(** Every segment joins two consecutive stop visits. *)
Lemma trip_segments_elem stop_times g :
  g ∈ trip_segments stop_times →
  ∃ i v w, stop_times !! i = Some v ∧ stop_times !! S i = Some w
           ∧ g = Segment (stop_id v) (stop_id w) (departure_time v)
                         (arrival_time w).
Proof.
  destruct stop_times as [|st0 rest]; simpl; [by intros ?%elem_of_nil|].
  revert st0. induction rest as [|st rest IH]; intros st0; simpl.
  - by intros ?%elem_of_nil.
  - intros [->|Hg]%elem_of_cons.
    + by exists 0%nat, st0, st.
    + destruct (IH st Hg) as (i & v & w & Hv & Hw & ->).
      by exists (S i), v, w.
Qed.

(** X3. When no stop of a trip is left before the next one is reached
    (each departure is at most the next arrival), every row of the trip,
    made from its stop times or from its frequencies, starts no later than
    it ends. *)
Theorem rows_start_before_end
    (trip_routetype_dict : gmap string sqlval)
    (frequencies_dict : gmap string (list window))
    (stoptimefetch : string → list stop_time)
    (trip_id : string) (lfd : gmap string lfval) :
  is_Some (trip_routetype_dict !! trip_id) →
  headways_nonzero frequencies_dict →
  (∀ i v w, stoptimefetch trip_id !! i = Some v →
            stoptimefetch trip_id !! S i = Some w →
            departure_time v ≤ arrival_time w) →
  ∃ rows lfd',
    Make_Rows_For_Trip trip_routetype_dict frequencies_dict stoptimefetch
      trip_id lfd = Ok (rows, lfd')
    ∧ ∀ r, r ∈ rows → sched_start r ≤ sched_end r.
Proof.
  intros Hrt Hnz Hmono. rewrite Make_Rows_For_Trip_rows by done.
  eexists _, _. split; [done|]. intros r. unfold trip_rows.
  assert (∀ g, g ∈ trip_segments (stoptimefetch trip_id) →
               seg_start g ≤ seg_end g) as Hseg.
  { intros g (i & v & w & Hv & Hw & ->)%trip_segments_elem. simpl. eauto. }
  destruct (frequencies_dict !! trip_id) as [windows|].
  - intros (g & Hr & Hg%Hseg)%list_elem_of_bind.
    unfold frequency_rows in Hr.
    apply list_elem_of_bind in Hr as (w & Hr & _).
    apply list_elem_of_fmap in Hr as (i & -> & _). simpl. lia.
  - intros (g & -> & Hg%Hseg)%list_elem_of_fmap. done.
Qed.

Lemma rows_start_before_end_witness :
  ∃ rows lfd',
    Make_Rows_For_Trip {["T2" := SInt 3]} {["T2" := [Window 0 1200 600]]}
      (λ _, demo_stop_times) "T2" ∅ = Ok (rows, lfd')
    ∧ ∀ r, r ∈ rows → sched_start r ≤ sched_end r.
Proof.
  apply (rows_start_before_end {["T2" := SInt 3]}
           {["T2" := [Window 0 1200 600]]} (λ _, demo_stop_times) "T2" ∅).
  - by exists (SInt 3).
  - intros t windows Ht.
    destruct (decide (t = "T2")) as [->|Hne].
    + rewrite lookup_singleton_eq in Ht. injection Ht as <-.
      repeat constructor. simpl. lia.
    + by rewrite lookup_singleton_ne in Ht.
  - intros [|[|[|i]]] v w Hv Hw; simpl in *; simplify_eq; simpl; lia.
Defined.

(** ** The rows of a run *)

Lemma trip_rows_elem trd fd stf t r :
  r ∈ trip_rows trd fd stf t →
  sched_trip r = t ∧ sched_key r ∈ trip_keys trd stf t.
Proof.
  unfold trip_rows, trip_keys. destruct (fd !! t) as [windows|].
  - intros (g & Hr & Hg)%list_elem_of_bind. unfold frequency_rows in Hr.
    apply list_elem_of_bind in Hr as (w & Hr & _).
    apply list_elem_of_fmap in Hr as (i & -> & _). simpl.
    split; [done|]. by apply list_elem_of_fmap_2.
  - intros (g & -> & Hg)%list_elem_of_fmap. simpl.
    split; [done|]. by apply list_elem_of_fmap_2.
Qed.

(** X4. After the schedules of a run are inserted, every row of
    [schedules] has a null [SourceOID], the identifier of a trip of the
    trips table, and a key that is in [linefeature_dict]; and a trip with
    fewer than two stop visits has no row. *)
Theorem schedules_rows_registered (db : tables) :
  tripDuplicateFetch (trips db) = [] →
  ∀ r, r ∈ schedules (generate_schedules db).2 →
    SourceOID r = None
    ∧ sched_trip (sched_row r) ∈ (trips db).*1
    ∧ (2 ≤ length (stop_times_of db (sched_trip (sched_row r))))%nat
    ∧ lines (generate_schedules db).2 !! sched_key (sched_row r)
      = Some LfTrue.
Proof.
  intros Hdup r. rewrite generate_schedules_rows by done. simpl.
  unfold Insert_Schedules.
  intros (r0 & -> & Hr0)%list_elem_of_fmap. simpl.
  apply list_elem_of_bind in Hr0 as (t & Hr0 & Ht).
  assert (2 ≤ length (stop_times_of db t))%nat as Hlen.
  { destruct (stop_times_of db t) as [|st0 [|st1 rest]] eqn:Hst;
      [| |simpl; lia];
      unfold trip_rows in Hr0; rewrite Hst in Hr0; simpl in Hr0;
      destruct (frequencies_dict_of db !! t);
      by apply elem_of_nil in Hr0. }
  apply trip_rows_elem in Hr0 as [Htrip Hkey]. rewrite Htrip.
  split; [done|]. split; [by apply trip_ids_of_elem|]. split; [done|].
  rewrite register_lookup, decide_True; [done|].
  apply list_elem_of_bind. by exists t.
Qed.

Lemma schedules_rows_registered_witness :
  tripDuplicateFetch (trips zero_headway_db) = []
  ∧ ∀ r, r ∈ schedules (generate_schedules zero_headway_db).2 →
      SourceOID r = None
      ∧ sched_trip (sched_row r) ∈ (trips zero_headway_db).*1
      ∧ (2 ≤ length (stop_times_of zero_headway_db
                       (sched_trip (sched_row r))))%nat
      ∧ lines (generate_schedules zero_headway_db).2
          !! sched_key (sched_row r)
        = Some LfTrue.
Proof.
  split; [vm_compute; reflexivity|].
  apply (schedules_rows_registered zero_headway_db). vm_compute. reflexivity.
Defined.

(** ** The dictionaries of routes and trips *)

Lemma make_RouteDict_snoc routes route :
  make_RouteDict (routes ++ [route])
  = <[route.1 := route.2]> (make_RouteDict routes).
Proof. unfold make_RouteDict. by rewrite foldl_app. Qed.

Lemma last_filter_snoc {A} (P : A → Prop) `{∀ x, Decision (P x)} l x :
  last (filter P (l ++ [x]))
  = if decide (P x) then Some x else last (filter P l).
Proof.
  rewrite filter_app, filter_cons, filter_nil.
  case_decide; [by rewrite last_snoc|by rewrite app_nil_r].
Qed.

(** X5. [RouteDict] gives, for a [route_id], the route type of the last
    row of the routes table with that identifier, and nothing for an
    identifier that is not in the table. *)
Theorem RouteDict_last_row (routes : list (string * sqlval)) (route_id : string) :
  make_RouteDict routes !! route_id
  = snd <$> last (filter (λ route, route.1 = route_id) routes).
Proof.
  induction routes as [|route routes IH] using rev_ind; [done|].
  rewrite make_RouteDict_snoc, last_filter_snoc.
  case_decide as Hid.
  - by rewrite <- Hid, lookup_insert_eq.
  - by rewrite lookup_insert_ne.
Qed.

(** The warnings of the loop over the trips table. *)
Lemma make_trip_routetype_dict_log
    (RouteDict : gmap string sqlval) (trips : list (string * string))
    (log : list message) :
  (make_trip_routetype_dict RouteDict trips log).2
  = log ++ (unknown_route_warning
              <$> filter (λ trip, RouteDict !! trip.2 = None) trips).
Proof.
  induction trips as [|trip trips IH] using rev_ind.
  - simpl. by rewrite app_nil_r.
  - rewrite make_trip_routetype_dict_snoc.
    rewrite filter_app, fmap_app, filter_cons, filter_nil.
    unfold trip_routetype_body.
    destruct (RouteDict !! trip.2) as [route_type|] eqn:Hroute; simpl.
    + by rewrite IH, app_nil_r.
    + by rewrite IH, app_assoc.
Qed.

(** X6. [trip_routetype_dict] gives, for a [trip_id], the route type that
    [RouteDict] holds for the route of the last row of the trips table
    with that identifier, or 100 when [RouteDict] does not hold the route;
    and the loop records one warning for each row of the trips table whose
    route is not in [RouteDict], in the order of the table, and nothing
    else. *)
Theorem trip_routetype_dict_rows
    (RouteDict : gmap string sqlval) (trips : list (string * string))
    (log : list message) (trip_id : string) :
  (make_trip_routetype_dict RouteDict trips log).1 !! trip_id
  = (λ trip, default (SInt 100) (RouteDict !! trip.2))
      <$> last (filter (λ trip, trip.1 = trip_id) trips)
  ∧ (make_trip_routetype_dict RouteDict trips log).2
    = log ++ (unknown_route_warning
                <$> filter (λ trip, RouteDict !! trip.2 = None) trips).
Proof.
  split; [|apply make_trip_routetype_dict_log].
  induction trips as [|trip trips IH] using rev_ind; [done|].
  rewrite make_trip_routetype_dict_snoc, last_filter_snoc.
  unfold trip_routetype_body.
  destruct (RouteDict !! trip.2) as [route_type|] eqn:Hroute; simpl.
  - case_decide as Hid.
    + rewrite <- Hid, lookup_insert_eq. simpl. by rewrite Hroute.
    + by rewrite lookup_insert_ne.
  - case_decide as Hid.
    + rewrite <- Hid, lookup_insert_eq. simpl. by rewrite Hroute.
    + by rewrite lookup_insert_ne.
Qed.



(** ** The number of pieces of a key *)

Lemma split_scan_nil sep skip piece :
  split_scan sep skip piece EmptyString = [piece].
Proof. done. Qed.

Lemma split_scan_skip sep n piece c s :
  split_scan sep (S n) piece (String c s) = split_scan sep n piece s.
Proof. done. Qed.

Lemma split_scan_cons sep piece c s :
  split_scan sep 0 piece (String c s)
  = if String.prefix sep (String c s)
    then piece :: split_scan sep (String.length sep - 1) EmptyString s
    else split_scan sep 0 (piece +:+ String c EmptyString) s.
Proof. done. Qed.

(** Passing over more characters first cannot give more pieces, and
    passing over at most a separator's length loses at most one piece. *)
Lemma split_scan_length_bounds sep s :
  (∀ j k p q, (j ≤ k)%nat →
     (length (split_scan sep k p s) ≤ length (split_scan sep j q s))%nat)
  ∧ (∀ k p q, (k ≤ String.length sep)%nat →
       (length (split_scan sep 0 p s)
        ≤ S (length (split_scan sep k q s)))%nat).
Proof.
  induction s as [|c s [IHm IHd]].
  - split; intros; rewrite !split_scan_nil; simpl; lia.
  - assert (∀ j k p q, (j ≤ k)%nat →
       (length (split_scan sep k p (String c s))
        ≤ length (split_scan sep j q (String c s)))%nat) as Hm.
    { intros j k p q Hjk. destruct k as [|k].
      - assert (j = 0)%nat as -> by lia. rewrite !split_scan_cons.
        destruct (String.prefix sep (String c s)); simpl.
        + apply le_n_S, IHm. lia.
        + apply IHm. lia.
      - rewrite split_scan_skip. destruct j as [|j].
        + rewrite split_scan_cons.
          destruct (String.prefix sep (String c s)); simpl.
          * etrans; [apply (IHm 0%nat k p EmptyString); lia|].
            apply IHd. lia.
          * apply IHm. lia.
        + rewrite split_scan_skip. apply IHm. lia. }
    split; [done|]. intros k p q Hk. destruct k as [|k].
    + etrans; [apply (Hm 0%nat 0%nat p q); lia|]. lia.
    + rewrite split_scan_skip, split_scan_cons.
      destruct (String.prefix sep (String c s)); simpl.
      * apply le_n_S, IHm. lia.
      * apply IHd. lia.
Qed.

Lemma split_scan_skip_app sep t piece v :
  split_scan sep (String.length t) piece (t +:+ v) = split_scan sep 0 piece v.
Proof.
  induction t as [|c t IH]; [done|].
  by rewrite append_cons; simpl; rewrite IH.
Qed.

Lemma prefix_append sep v : String.prefix sep (sep +:+ v) = true.
Proof.
  induction sep as [|c sep IH].
  - by destruct v.
  - rewrite append_cons, prefix_cons. by destruct (ascii_dec c c).
Qed.

Lemma length_append s t :
  String.length (s +:+ t) = (String.length s + String.length t)%nat.
Proof.
  induction s as [|c s IH]; [done|]. rewrite append_cons. simpl. by rewrite IH.
Qed.

(** A separator in the text is worth one piece more than what follows
    it. *)
Lemma split_scan_separator c0 sep u v p q :
  (S (length (split_scan (String c0 sep) 0 q v))
   ≤ length (split_scan (String c0 sep) 0 p (u +:+ String c0 sep +:+ v)))%nat.
Proof.
  revert p. induction u as [|c u IH]; intros p.
  - change (EmptyString +:+ String c0 sep +:+ v)
      with (String c0 sep +:+ v).
    rewrite append_cons, split_scan_cons, <- append_cons, prefix_append.
    simpl. rewrite Nat.sub_0_r, split_scan_skip_app.
    apply le_n_S, split_scan_length_bounds. lia.
  - rewrite append_cons, split_scan_cons.
    destruct (String.prefix _ _); [|apply IH]. simpl. apply le_n_S.
    rewrite Nat.sub_0_r.
    rewrite <- (split_scan_skip_app (String c0 sep) (u +:+ String c0 sep) q v).
    rewrite append_assoc. apply split_scan_length_bounds.
    rewrite length_append. simpl. lia.
Qed.

Lemma split_scan_nonempty sep skip piece s :
  (1 ≤ length (split_scan sep skip piece s))%nat.
Proof.
  revert skip piece. induction s as [|c s IH]; intros skip piece; [done|].
  destruct skip as [|n]; [|apply IH]. rewrite split_scan_cons.
  destruct (String.prefix _ _); [simpl; lia|apply IH].
Qed.

(** Any key has at least three pieces. *)
Lemma split_key_SourceOIDkey_length a b m :
  (3 ≤ length (split_key (SourceOIDkey_of a b m)))%nat.
Proof.
  unfold split_key, SourceOIDkey_of.
  pose proof (split_scan_separator " " ", " a (b +:+ " , " +:+ fmt_s m)
                EmptyString EmptyString) as H1.
  pose proof (split_scan_separator " " ", " b (fmt_s m)
                EmptyString EmptyString) as H2.
  pose proof (split_scan_nonempty " , " 0 EmptyString (fmt_s m)) as H3.
  change (String " " ", ") with " , " in *. lia.
Qed.

Lemma split_key_SourceOIDkey_pieces a b m :
  ∃ p0 p1 p2 rest, split_key (SourceOIDkey_of a b m) = p0 :: p1 :: p2 :: rest.
Proof.
  pose proof (split_key_SourceOIDkey_length a b m) as Hlen.
  destruct (split_key _) as [|p0 [|p1 [|p2 rest]]]; simpl in Hlen; try lia.
  by exists p0, p1, p2, rest.
Qed.

(** X8. The text of a from-stop, a to-stop and a route type, whatever they
    hold, splits into at least three pieces: for a line with such a
    [pair_id] the loop over [cur4] raises nothing and puts the ObjectID of
    the line under the key, and [retrieve_linefeatures_info] raises
    nothing for such a key of [linefeature_dict]. *)
Theorem key_never_IndexError
    (maxint : Z) (a b : string) (m : sqlval) (lfd : gmap string lfval)
    (route_type0 : option Z) (text0 : option string) (oid : Z) :
  let key := SourceOIDkey_of a b m in
  (3 ≤ length (split_key key))%nat
  ∧ (∃ row', cur4_body maxint lfd (LineRow key route_type0 text0 oid)
             = Ok (row', <[key := LfOID oid]> lfd)
             ∧ pair_id row' = key ∧ line_OID row' = oid)
  ∧ (∀ v, lfd !! key = Some v →
          ∃ from_stop to_stop route_type,
            retrieve_linefeatures_info maxint lfd key
            = Ok (LinefeaturesRow v from_stop to_stop route_type)).
Proof.
  intros key. subst key. split; [apply split_key_SourceOIDkey_length|].
  destruct (split_key_SourceOIDkey_pieces a b m)
    as (p0 & p1 & p2 & rest & Hsplit).
  split.
  - apply cur4_body_registers. simpl. by rewrite Hsplit.
  - intros v Hv. unfold retrieve_linefeatures_info, getitem, py_int.
    rewrite Hv, Hsplit. simpl.
    destruct (parse_int p2) as [z|]; simpl; [|by eexists _, _, _].
    destruct (fits_int maxint z); by eexists _, _, _.
Qed.

(** ** Stop pairs and the stops that are not found *)

Section StopPairsProps.

Context {geometry : Type}.
Variable stoplatlon_dict : gmap string geometry.
Variable unicode_list : list string → string.

Lemma stop_pairs_body_Ok s key :
  (2 ≤ length (split_key key))%nat →
  stop_pairs_body geometry stoplatlon_dict s key
  = Ok {| pair_points := pair_points s ++ key_points stoplatlon_dict key;
          badStops :=
            badStops s ++ option_list (missing_stop stoplatlon_dict key);
          badkeys :=
            badkeys s
              ++ (if key_geometries stoplatlon_dict key is Some _ then []
                  else [key]) |}.
Proof.
  intros Hlen. unfold stop_pairs_body, key_points, missing_stop,
    key_geometries, list_getitem.
  destruct (split_key key) as [|stop1 [|stop2 rest]]; simpl in Hlen; try lia.
  simpl. destruct (stoplatlon_dict !! stop1) as [g1|]; simpl.
  - destruct (stoplatlon_dict !! stop2) as [g2|]; simpl.
    + by rewrite !app_nil_r.
    + by rewrite app_nil_r.
  - by rewrite app_nil_r.
Qed.

Lemma stop_pairs_loop s keys :
  Forall (λ key, (2 ≤ length (split_key key))%nat) keys →
  for_each (stop_pairs_body geometry stoplatlon_dict) s keys
  = Ok {| pair_points :=
            pair_points s ++ (key ← keys; key_points stoplatlon_dict key);
          badStops := badStops s ++ omap (missing_stop stoplatlon_dict) keys;
          badkeys :=
            badkeys s
              ++ filter (λ key, ¬ is_Some (key_geometries stoplatlon_dict key))
                   keys |}.
Proof.
  intros Hkeys. revert s.
  induction Hkeys as [|key keys Hkey _ IH]; intros s; simpl.
  - rewrite !app_nil_r. by destruct s.
  - rewrite stop_pairs_body_Ok by done. simpl. rewrite IH. simpl.
    rewrite <- !app_assoc. f_equal. f_equal.
    + f_equal. by destruct (missing_stop stoplatlon_dict key).
    + f_equal. rewrite filter_cons.
      destruct (key_geometries stoplatlon_dict key) as [x|].
      * by rewrite decide_False by (intros Hx; apply Hx; eauto).
      * by rewrite decide_True by (by intros [??]).
Qed.

End StopPairsProps.

(** Deleting each key once leaves the other keys as they are. *)
Lemma delitem_loop {V} (d : gmap string V) keys :
  NoDup keys → (∀ key, key ∈ keys → is_Some (d !! key)) →
  ∃ d', for_each delitem d keys = Ok d'
        ∧ ∀ key, d' !! key = if decide (key ∈ keys) then None else d !! key.
Proof.
  intros Hnd. revert d. induction Hnd as [|k keys Hk Hnd IH]; intros d Hin.
  - exists d. split; [done|]. intros key.
    by rewrite decide_False by apply not_elem_of_nil.
  - simpl. unfold delitem at 1.
    destruct (Hin k ltac:(left)) as [v ->]. simpl.
    destruct (IH (delete k d)) as (d' & -> & Hd').
    { intros key Hkey. rewrite lookup_delete_ne by (by intros ->).
      apply Hin. by right. }
    exists d'. split; [done|]. intros key. rewrite Hd'.
    destruct (decide (key ∈ keys)) as [?|Hnin].
    + by rewrite decide_True by (by right).
    + destruct (decide (key = k)) as [->|Hne].
      * rewrite decide_True by left. apply lookup_delete_eq.
      * rewrite decide_False by (by intros [?|?]%elem_of_cons).
        by apply lookup_delete_ne.
Qed.

Lemma generate_stop_pairs_Ok {geometry} (stoplatlon_dict : gmap string geometry)
    unicode_list (lfd : gmap string lfval) log :
  (∀ key, is_Some (lfd !! key) → (2 ≤ length (split_key key))%nat) →
  let keys := (map_to_list lfd).*1 in
  let missing := omap (missing_stop stoplatlon_dict) keys in
  ∃ lfd',
    generate_stop_pairs geometry stoplatlon_dict unicode_list lfd log
    = Ok (key ← keys; key_points stoplatlon_dict key, lfd',
          match missing with
          | [] => log
          | _ :: _ =>
              log ++ [missing_stops_warning unicode_list (remove_dups missing)]
          end)
    ∧ ∀ key, lfd' !! key
             = match key_geometries stoplatlon_dict key with
               | Some _ => lfd !! key
               | None => None
               end.
Proof.
  intros Hlen keys missing. unfold generate_stop_pairs. fold keys.
  assert (∀ key, key ∈ keys ↔ is_Some (lfd !! key)) as Hkeys.
  { intros key. unfold keys. rewrite list_elem_of_fmap. split.
    - intros ([k v] & -> & Hv%elem_of_map_to_list). by exists v.
    - intros [v Hv]. exists (key, v). by rewrite elem_of_map_to_list. }
  rewrite stop_pairs_loop by (apply Forall_forall; intros; apply Hlen, Hkeys; done).
  simpl. fold missing.
  set (bad := filter _ keys).
  assert (∀ key, key ∈ bad ↔ is_Some (lfd !! key)
                               ∧ key_geometries stoplatlon_dict key = None)
    as Hbad.
  { intros key. unfold bad. rewrite list_elem_of_filter, Hkeys.
    destruct (key_geometries stoplatlon_dict key) as [x|].
    - split; [intros [Hx _]; destruct Hx; eauto|by intros [_ ?]].
    - split; [intros [_ ?]; by split|].
      intros [? _]. split; [by intros [??]|done]. }
  destruct bad as [|k0 bad0] eqn:Hbad0.
  - exists lfd. split; [done|]. intros key.
    destruct (key_geometries stoplatlon_dict key) as [x|] eqn:Hx; [done|].
    destruct (lfd !! key) as [v|] eqn:Hv; [|done].
    exfalso. eapply not_elem_of_nil, Hbad. split; [by eexists|done].
  - destruct (delitem_loop lfd (remove_dups (k0 :: bad0)))
      as (lfd' & -> & Hlfd').
    { apply NoDup_remove_dups. }
    { intros key Hkey. rewrite elem_of_remove_dups in Hkey.
      by apply Hbad in Hkey as [? _]. }
    exists lfd'. split; [done|]. intros key. rewrite Hlfd'.
    destruct (key_geometries stoplatlon_dict key) as [x|] eqn:Hx.
    + rewrite decide_False; [done|].
      intros Hkey. rewrite elem_of_remove_dups in Hkey.
      apply Hbad in Hkey as [_ Hnone]. congruence.
    + destruct (lfd !! key) as [v|] eqn:Hv; [|by case_decide].
      rewrite decide_True; [done|]. apply elem_of_remove_dups, Hbad.
      split; [by eexists|done].
Qed.

Lemma keys_Forall {V} (P : string → Prop) (d : gmap string V) :
  Forall P (map_to_list d).*1 ↔ ∀ key, is_Some (d !! key) → P key.
Proof.
  rewrite Forall_forall. split.
  - intros HP key [v Hv]. apply HP, list_elem_of_fmap. exists (key, v).
    by rewrite elem_of_map_to_list.
  - intros HP key ([k v] & -> & Hv%elem_of_map_to_list)%list_elem_of_fmap.
    apply HP. by exists v.
Qed.

(** X9. For a [linefeature_dict] whose keys have at least two pieces, the
    stop pairs step raises nothing. It writes, for each key whose first
    two pieces are both in [stoplatlon_dict], the point of the first with
    sequence 1 and then the point of the second with sequence 2, and no
    point for any other key; and it leaves in [linefeature_dict] exactly
    the first kind of keys, with their values. *)
Theorem stop_pairs_keep_found_keys {geometry : Type}
    (stoplatlon_dict : gmap string geometry)
    (unicode_list : list string → string)
    (lfd : gmap string lfval) (log : list message) :
  Forall (λ key, (2 ≤ length (split_key key))%nat) (map_to_list lfd).*1 →
  ∃ points lfd' log',
    generate_stop_pairs geometry stoplatlon_dict unicode_list lfd log
    = Ok (points, lfd', log')
    ∧ (∀ key, lfd' !! key
              = match key_geometries stoplatlon_dict key with
                | Some _ => lfd !! key
                | None => None
                end)
    ∧ points
      = (key ← (map_to_list lfd).*1;
         match key_geometries stoplatlon_dict key with
         | Some (stop1, stop1_geom, stop2, stop2_geom) =>
             [PairPoint stop1_geom stop1 key 1;
              PairPoint stop2_geom stop2 key 2]
         | None => []
         end)
    ∧ (∀ key stop1 stop1_geom stop2 stop2_geom,
         key_geometries stoplatlon_dict key
         = Some (stop1, stop1_geom, stop2, stop2_geom)
         ↔ split_key key !! 0%nat = Some stop1
           ∧ split_key key !! 1%nat = Some stop2
           ∧ stoplatlon_dict !! stop1 = Some stop1_geom
           ∧ stoplatlon_dict !! stop2 = Some stop2_geom).
Proof.
  intros Hlen.
  pose proof (proj1 (keys_Forall _ lfd) Hlen) as Hlen'. simpl in Hlen'.
  clear Hlen. rename Hlen' into Hlen.
  destruct (generate_stop_pairs_Ok stoplatlon_dict unicode_list lfd log Hlen)
    as (lfd' & Hrun & Hlfd').
  eexists _, lfd', _. split; [exact Hrun|]. split; [done|]. split; [done|].
  intros key stop1 g1 stop2 g2. unfold key_geometries. split.
  - intros Hk. destruct (split_key key !! 0%nat) as [s1|]; [|done]. simpl in Hk.
    destruct (stoplatlon_dict !! s1) as [x1|] eqn:H1; [|done]. simpl in Hk.
    destruct (split_key key !! 1%nat) as [s2|]; [|done]. simpl in Hk.
    destruct (stoplatlon_dict !! s2) as [x2|] eqn:H2; [|done]. simpl in Hk.
    by simplify_eq.
  - intros (-> & -> & H1 & H2). simpl. rewrite H1. simpl. by rewrite H2.
Qed.

Lemma stop_pairs_keep_found_keys_witness :
  ∃ points lfd' log',
    generate_stop_pairs Z demo_stoplatlon_dict (λ _, "[...]")
      demo_linefeature_dict []
    = Ok (points, lfd', log')
    ∧ (∀ key, lfd' !! key
              = match key_geometries demo_stoplatlon_dict key with
                | Some _ => demo_linefeature_dict !! key
                | None => None
                end)
    ∧ points
      = (key ← (map_to_list demo_linefeature_dict).*1;
         match key_geometries demo_stoplatlon_dict key with
         | Some (stop1, stop1_geom, stop2, stop2_geom) =>
             [PairPoint stop1_geom stop1 key 1;
              PairPoint stop2_geom stop2 key 2]
         | None => []
         end)
    ∧ (∀ key stop1 stop1_geom stop2 stop2_geom,
         key_geometries demo_stoplatlon_dict key
         = Some (stop1, stop1_geom, stop2, stop2_geom)
         ↔ split_key key !! 0%nat = Some stop1
           ∧ split_key key !! 1%nat = Some stop2
           ∧ demo_stoplatlon_dict !! stop1 = Some stop1_geom
           ∧ demo_stoplatlon_dict !! stop2 = Some stop2_geom).
Proof.
  apply (stop_pairs_keep_found_keys demo_stoplatlon_dict (λ _, "[...]")
           demo_linefeature_dict []).
  vm_compute. repeat constructor.
Defined.

(** The run over the three keys: the two points of the line from A to B,
    one warning for the stops X and Y, and the one key left. *)
Example stop_pairs_run :
  ∃ stops,
    generate_stop_pairs Z demo_stoplatlon_dict (λ _, "[...]")
      demo_linefeature_dict []
    = Ok ([PairPoint 1 "A" "A , B , 3" 1; PairPoint 2 "B" "A , B , 3" 2],
          {["A , B , 3" := LfTrue]},
          [missing_stops_warning (λ _, "[...]") stops])
    ∧ stops ≡ₚ ["X"; "Y"].
Proof.
  eexists. split; [vm_compute; reflexivity|].
  apply perm_swap || reflexivity.
Qed.

Lemma missing_stop_Some {geometry} (stoplatlon_dict : gmap string geometry)
    key stop :
  missing_stop stoplatlon_dict key = Some stop
  ↔ (split_key key !! 0%nat = Some stop ∧ stoplatlon_dict !! stop = None)
    ∨ (∃ stop1, split_key key !! 0%nat = Some stop1
                ∧ is_Some (stoplatlon_dict !! stop1)
                ∧ split_key key !! 1%nat = Some stop
                ∧ stoplatlon_dict !! stop = None).
Proof.
  unfold missing_stop.
  destruct (split_key key !! 0%nat) as [s1|]; simpl;
    [|split; [done|by intros [[? _]|(? & ? & _)]]].
  destruct (stoplatlon_dict !! s1) as [g1|] eqn:H1.
  - destruct (split_key key !! 1%nat) as [s2|]; simpl.
    + destruct (stoplatlon_dict !! s2) as [g2|] eqn:H2.
      * split; [done|]. intros [[[= ->] ?]|(? & _ & _ & [= ->] & ?)]; congruence.
      * split.
        -- intros [= ->]. right. exists s1. by rewrite H1.
        -- intros [[[= ->] ?]|(? & _ & _ & [= ->] & _)]; congruence.
    + split; [done|]. intros [[[= ->] ?]|(? & _ & _ & ? & _)]; congruence.
  - split.
    + intros [= ->]. by left.
    + intros [[[= ->] _]|(? & [= <-] & [??] & _)]; congruence.
Qed.

(** X10. The stops that are not found are reported in one warning, each
    once, and only when there is one. A stop is reported when it is the
    first piece of a key and is not in [stoplatlon_dict], or the second
    piece of a key whose first piece is there; the second stop of a key
    whose first stop is not found is not looked up. *)
Theorem missing_stops_warned_once {geometry : Type}
    (stoplatlon_dict : gmap string geometry)
    (unicode_list : list string → string)
    (lfd : gmap string lfval) (log : list message) :
  Forall (λ key, (2 ≤ length (split_key key))%nat) (map_to_list lfd).*1 →
  ∃ points lfd' log' reported,
    generate_stop_pairs geometry stoplatlon_dict unicode_list lfd log
    = Ok (points, lfd', log')
    ∧ log' = match reported with
             | [] => log
             | _ :: _ => log ++ [missing_stops_warning unicode_list reported]
             end
    ∧ NoDup reported
    ∧ ∀ stop, stop ∈ reported ↔
        ∃ key, is_Some (lfd !! key)
          ∧ ((split_key key !! 0%nat = Some stop
              ∧ stoplatlon_dict !! stop = None)
             ∨ (∃ stop1, split_key key !! 0%nat = Some stop1
                         ∧ is_Some (stoplatlon_dict !! stop1)
                         ∧ split_key key !! 1%nat = Some stop
                         ∧ stoplatlon_dict !! stop = None)).
Proof.
  intros Hlen.
  pose proof (proj1 (keys_Forall _ lfd) Hlen) as Hlen'. simpl in Hlen'.
  clear Hlen. rename Hlen' into Hlen.
  destruct (generate_stop_pairs_Ok stoplatlon_dict unicode_list lfd log Hlen)
    as (lfd' & Hrun & _).
  set (missing := omap (missing_stop stoplatlon_dict) (map_to_list lfd).*1)
    in *.
  exists (key ← (map_to_list lfd).*1; key_points stoplatlon_dict key), lfd'.
  eexists _, (remove_dups missing).
  split; [exact Hrun|]. split.
  { destruct missing as [|stop missing0] eqn:Hm; [done|].
    destruct (remove_dups (stop :: missing0)) as [|r rs] eqn:Hr; [|done].
    assert (stop ∈ remove_dups (stop :: missing0)) as Hin
      by (apply elem_of_remove_dups; left).
    rewrite Hr in Hin. by apply elem_of_nil in Hin. }
  split; [apply NoDup_remove_dups|].
  intros stop. rewrite elem_of_remove_dups. unfold missing.
  rewrite list_elem_of_omap. split.
  - intros (key & Hkey & Hstop%missing_stop_Some). exists key.
    split; [|done].
    apply list_elem_of_fmap in Hkey as ([k v] & -> & Hv%elem_of_map_to_list).
    by exists v.
  - intros (key & [v Hv] & Hstop). exists key.
    split; [|by apply missing_stop_Some].
    apply list_elem_of_fmap. exists (key, v). by rewrite elem_of_map_to_list.
Qed.

Lemma missing_stops_warned_once_witness :
  ∃ points lfd' log' reported,
    generate_stop_pairs Z demo_stoplatlon_dict (λ _, "[...]")
      demo_linefeature_dict []
    = Ok (points, lfd', log')
    ∧ log' = match reported with
             | [] => []
             | _ :: _ => [] ++ [missing_stops_warning (λ _, "[...]") reported]
             end
    ∧ NoDup reported
    ∧ ∀ stop, stop ∈ reported ↔
        ∃ key, is_Some (demo_linefeature_dict !! key)
          ∧ ((split_key key !! 0%nat = Some stop
              ∧ demo_stoplatlon_dict !! stop = None)
             ∨ (∃ stop1, split_key key !! 0%nat = Some stop1
                         ∧ is_Some (demo_stoplatlon_dict !! stop1)
                         ∧ split_key key !! 1%nat = Some stop
                         ∧ demo_stoplatlon_dict !! stop = None)).
Proof.
  apply (missing_stops_warned_once demo_stoplatlon_dict (λ _, "[...]")
           demo_linefeature_dict []).
  vm_compute. repeat constructor.
Defined.

(** ** Lines of zero length *)

Lemma delete_zero_length_Ok
    (lfd : gmap string lfval) (lines_fc : list line_feature) :
  NoDup (ln_pair_id <$> lines_fc) →
  Forall (λ line, is_Some (lfd !! ln_pair_id line)) lines_fc →
  ∃ lfd',
    delete_zero_length lfd lines_fc
    = Ok (lfd', filter (λ line, ¬ zero_length line) lines_fc)
    ∧ ∀ key, lfd' !! key
             = if decide (key ∈ ln_pair_id <$> filter zero_length lines_fc)
               then None else lfd !! key.
Proof.
  intros Hnd Hin. unfold delete_zero_length.
  assert (∀ (l : list line_feature) (d : gmap string lfval),
            for_each (λ d row, delitem d (ln_pair_id row)) d l
            = for_each delitem d (ln_pair_id <$> l)) as Hloop.
  { induction l as [|line l IH]; intros d; simpl; [done|].
    destruct (delitem d (ln_pair_id line)); simpl; [apply IH|done]. }
  rewrite Hloop.
  destruct (delitem_loop lfd (ln_pair_id <$> filter zero_length lines_fc))
    as (lfd' & -> & Hlfd').
  - apply (sublist_NoDup _ (ln_pair_id <$> lines_fc)); [done|].
    apply fmap_sublist, sublist_filter.
  - intros key (line & -> & [_ Hline]%list_elem_of_filter)%list_elem_of_fmap.
    by apply (proj1 (Forall_forall _ _) Hin).
  - by exists lfd'.
Qed.

(** X11. When [PointsToLine] made no two lines of one [pair_id] and every
    line's [pair_id] is a key of [linefeature_dict], the clean-up raises
    nothing: it removes from the dictionary exactly the keys of the lines
    of zero length and keeps the other lines in order, each of them still
    with its key in the dictionary. *)
Theorem delete_zero_length_keys
    (lfd : gmap string lfval) (lines_fc : list line_feature) :
  NoDup (ln_pair_id <$> lines_fc) →
  Forall (λ line, is_Some (lfd !! ln_pair_id line)) lines_fc →
  ∃ lfd',
    delete_zero_length lfd lines_fc
    = Ok (lfd', filter (λ line, ¬ zero_length line) lines_fc)
    ∧ (∀ key, lfd' !! key
              = if decide (key ∈ ln_pair_id <$> filter zero_length lines_fc)
                then None else lfd !! key)
    ∧ Forall (λ line, lfd' !! ln_pair_id line = lfd !! ln_pair_id line
                      ∧ is_Some (lfd !! ln_pair_id line))
        (filter (λ line, ¬ zero_length line) lines_fc).
Proof.
  intros Hnd Hin.
  destruct (delete_zero_length_Ok lfd lines_fc Hnd Hin) as (lfd' & Hrun & Hlfd').
  exists lfd'. split; [done|]. split; [done|].
  apply Forall_forall. intros line [Hnz Hline]%list_elem_of_filter.
  split; [|by apply (proj1 (Forall_forall _ _) Hin)].
  rewrite Hlfd', decide_False; [done|].
  intros (zero & Hid & [Hz Hzero]%list_elem_of_filter)%list_elem_of_fmap.
  assert (line = zero) as ->; [|done].
  apply list_elem_of_lookup in Hline as [i Hi].
  apply list_elem_of_lookup in Hzero as [j Hj].
  assert (i = j) as ->; [|congruence].
  apply (NoDup_lookup _ i j (ln_pair_id line) Hnd).
  - by rewrite list_lookup_fmap, Hi.
  - by rewrite list_lookup_fmap, Hj, Hid.
Qed.

Lemma delete_zero_length_keys_witness :
  ∃ lfd',
    delete_zero_length demo_linefeature_dict
      [LineFeature "A , B , 3" 12 1; LineFeature "A , X , 3" 0 2]
    = Ok (lfd', filter (λ line, ¬ zero_length line)
                  [LineFeature "A , B , 3" 12 1; LineFeature "A , X , 3" 0 2])
    ∧ (∀ key, lfd' !! key
              = if decide (key ∈ ln_pair_id
                             <$> filter zero_length
                                   [LineFeature "A , B , 3" 12 1;
                                    LineFeature "A , X , 3" 0 2])
                then None else demo_linefeature_dict !! key)
    ∧ Forall (λ line,
                lfd' !! ln_pair_id line
                = demo_linefeature_dict !! ln_pair_id line
                ∧ is_Some (demo_linefeature_dict !! ln_pair_id line))
        (filter (λ line, ¬ zero_length line)
           [LineFeature "A , B , 3" 12 1; LineFeature "A , X , 3" 0 2]).
Proof.
  apply (delete_zero_length_keys demo_linefeature_dict
           [LineFeature "A , B , 3" 12 1; LineFeature "A , X , 3" 0 2]).
  - apply (bool_decide_unpack _). vm_compute. exact I.
  - repeat constructor; vm_compute; eauto.
Defined.

(** ** The ObjectIDs of the lines *)

Lemma cur4_loop_Ok maxint rows acc :
  Forall (λ row, (3 ≤ length (split_key (pair_id row)))%nat) rows →
  ∃ rows',
    for_each
      (λ acc row,
         let! r := cur4_body maxint acc.2 row in
         Ok (acc.1 ++ [r.1], r.2)) acc rows
    = Ok (acc.1 ++ rows',
          foldl (λ d row, <[pair_id row := LfOID (line_OID row)]> d)
                acc.2 rows)
    ∧ Forall2 (λ row row', pair_id row' = pair_id row
                           ∧ line_OID row' = line_OID row) rows rows'.
Proof.
  intros Hrows. revert acc.
  induction Hrows as [|row rows Hrow _ IH]; intros [done lfd]; simpl.
  - exists []. by rewrite app_nil_r.
  - destruct (cur4_body_registers maxint lfd row)
      as (row' & -> & Hpair & Hoid).
    { destruct (split_key (pair_id row)) as [|? [|? [|? ?]]];
        simpl in Hrow; try lia. by eexists. }
    simpl. destruct (IH (done ++ [row'], <[pair_id row := LfOID (line_OID row)]> lfd))
      as (rows' & -> & Hall).
    exists (row' :: rows'). simpl. rewrite <- app_assoc.
    split; [done|]. by constructor.
Qed.

Lemma assign_OIDs_lookup rows (lfd : gmap string lfval) key :
  foldl (λ d row, <[pair_id row := LfOID (line_OID row)]> d) lfd rows !! key
  = match last (filter (λ row, pair_id row = key) rows) with
    | Some row => Some (LfOID (line_OID row))
    | None => lfd !! key
    end.
Proof.
  induction rows as [|row rows IH] using rev_ind; [done|].
  rewrite foldl_app, last_filter_snoc. simpl. case_decide as Hkey.
  - by rewrite <- Hkey, lookup_insert_eq.
  - by rewrite lookup_insert_ne.
Qed.

(** X12. For lines whose [pair_id] has at least three pieces, the loop
    over [cur4] raises nothing and keeps the [pair_id] and the ObjectID of
    every line; afterwards [linefeature_dict] holds, under the [pair_id] of
    a line, the ObjectID of the last line with that [pair_id], and what it
    held before under any other key. *)
Theorem cur4_loop_OIDs
    (maxint : Z) (lfd : gmap string lfval) (rows : list line_row) :
  Forall (λ row, (3 ≤ length (split_key (pair_id row)))%nat) rows →
  ∃ rows' lfd',
    cur4_loop maxint lfd rows = Ok (rows', lfd')
    ∧ Forall2 (λ row row', pair_id row' = pair_id row
                           ∧ line_OID row' = line_OID row) rows rows'
    ∧ ∀ key, lfd' !! key
             = match last (filter (λ row, pair_id row = key) rows) with
               | Some row => Some (LfOID (line_OID row))
               | None => lfd !! key
               end.
Proof.
  intros Hrows. unfold cur4_loop.
  destruct (cur4_loop_Ok maxint rows ([], lfd) Hrows) as (rows' & -> & Hall).
  eexists _, _. split; [done|]. split; [done|]. apply assign_OIDs_lookup.
Qed.

Lemma cur4_loop_OIDs_witness :
  ∃ rows' lfd',
    cur4_loop 2147483647 demo_linefeature_dict
      [LineRow "A , B , 3" None None 1]
    = Ok (rows', lfd')
    ∧ Forall2 (λ row row', pair_id row' = pair_id row
                           ∧ line_OID row' = line_OID row)
        [LineRow "A , B , 3" None None 1] rows'
    ∧ ∀ key, lfd' !! key
             = match last (filter (λ row, pair_id row = key)
                             [LineRow "A , B , 3" None None 1]) with
               | Some row => Some (LfOID (line_OID row))
               | None => demo_linefeature_dict !! key
               end.
Proof.
  apply (cur4_loop_OIDs 2147483647 demo_linefeature_dict
           [LineRow "A , B , 3" None None 1]).
  repeat constructor.
Defined.

(** ** The [linefeatures] table *)

Lemma map_each_Forall2 {A B} (f : A → result B) (R : A → B → Prop) l :
  Forall (λ x, ∃ y, f x = Ok y ∧ R x y) l →
  ∃ ys, map_each f l = Ok ys ∧ Forall2 R l ys.
Proof.
  induction 1 as [|x l (y & Hy & HR) _ (ys & IH & Hall)]; simpl.
  - by exists [].
  - rewrite Hy, IH. simpl. exists (y :: ys). split; [done|]. by constructor.
Qed.

Lemma retrieve_linefeatures_info_Ok maxint lfd key v p0 p1 p2 rest :
  lfd !! key = Some v → split_key key = p0 :: p1 :: p2 :: rest →
  retrieve_linefeatures_info maxint lfd key
  = Ok (LinefeaturesRow v p0 p1 (linefeatures_route_type maxint p2)).
Proof.
  intros Hv Hsplit.
  unfold retrieve_linefeatures_info, getitem, py_int, linefeatures_route_type.
  rewrite Hv, Hsplit. simpl.
  destruct (parse_int p2) as [z|]; simpl; [|done].
  by destruct (fits_int maxint z).
Qed.

Lemma map_each_fmap {A B C} (f : B → result C) (g : A → B) l :
  map_each f (g <$> l) = map_each (λ x, f (g x)) l.
Proof.
  induction l as [|x l IH]; [done|]. rewrite fmap_cons. simpl.
  by rewrite IH.
Qed.

Lemma linefeatures_rows_Ok maxint (lfd : gmap string lfval) :
  (∀ key, is_Some (lfd !! key) → (3 ≤ length (split_key key))%nat) →
  ∃ rows,
    linefeatures_rows maxint lfd = Ok rows
    ∧ Forall2 (λ kv row,
                 lf_SourceOID row = kv.2
                 ∧ split_key kv.1 !! 0%nat = Some (lf_from_stop row)
                 ∧ split_key kv.1 !! 1%nat = Some (lf_to_stop row)
                 ∧ (linefeatures_route_type maxint <$> split_key kv.1 !! 2%nat)
                   = Some (lf_route_type row))
        (map_to_list lfd) rows.
Proof.
  intros Hlen. unfold linefeatures_rows. rewrite map_each_fmap.
  apply map_each_Forall2, Forall_forall.
  intros [k v] Hv%elem_of_map_to_list. simpl.
  pose proof (Hlen k ltac:(by exists v)) as Hk.
  destruct (split_key k) as [|p0 [|p1 [|p2 rest]]] eqn:Hsplit;
    simpl in Hk; try lia.
  eexists. split; [by eapply retrieve_linefeatures_info_Ok|]. done.
Qed.



(** ** The stop pairs of a run *)

Lemma run_keys_pieces db key :
  tripDuplicateFetch (trips db) = [] →
  is_Some (lines (generate_schedules db).2 !! key) →
  (3 ≤ length (split_key key))%nat.
Proof.
  intros Hdup. rewrite generate_schedules_rows by done. simpl.
  rewrite register_lookup, lookup_empty.
  case_decide as Hkey; [|by intros [??]]. intros _.
  apply run_keys_elem in Hkey as (t & g & _ & _ & ->).
  apply split_key_SourceOIDkey_length.
Qed.

Lemma key_geometries_SourceOIDkey {geometry}
    (stoplatlon_dict : gmap string geometry) a b m :
  comma_free a = true → comma_free b = true →
  key_geometries stoplatlon_dict (SourceOIDkey_of a b m)
  = g1 ← stoplatlon_dict !! a; g2 ← stoplatlon_dict !! b; Some (a, g1, b, g2).
Proof.
  intros Ha Hb. unfold key_geometries.
  rewrite split_key_SourceOIDkey by done. simpl.
  destruct (stoplatlon_dict !! a); [|done]. simpl.
  destruct (split_key (fmt_s m)); by destruct (stoplatlon_dict !! b).
Qed.

(** X14. For the dictionary of any run that the trips table does not stop,
    the stop pairs step raises nothing. After it the key of a segment
    between two stops without commas in their identifiers is in
    [linefeature_dict] exactly when both stops are in [stoplatlon_dict],
    and the two points written for it are those of its from-stop and of
    its to-stop. *)
Theorem run_stop_pairs {geometry : Type} (db : tables)
    (stoplatlon_dict : gmap string geometry)
    (unicode_list : list string → string) :
  tripDuplicateFetch (trips db) = [] →
  ∃ points lfd' log',
    generate_stop_pairs geometry stoplatlon_dict unicode_list
      (lines (generate_schedules db).2) (log (generate_schedules db).2)
    = Ok (points, lfd', log')
    ∧ ∀ t g,
        t ∈ (trips db).*1 → g ∈ trip_segments (stop_times_of db t) →
        comma_free (seg_from g) = true → comma_free (seg_to g) = true →
        let key := segment_key (trip_route_type db t) g in
        match stoplatlon_dict !! seg_from g, stoplatlon_dict !! seg_to g with
        | Some from_geom, Some to_geom =>
            lfd' !! key = Some LfTrue
            ∧ filter (λ p, pp_pair_id p = key) points
              = [PairPoint from_geom (seg_from g) key 1;
                 PairPoint to_geom (seg_to g) key 2]
        | _, _ =>
            lfd' !! key = None
            ∧ filter (λ p, pp_pair_id p = key) points = []
        end.
Proof.
  intros Hdup.
  destruct (generate_stop_pairs_Ok stoplatlon_dict unicode_list
              (lines (generate_schedules db).2)
              (log (generate_schedules db).2)) as (lfd' & Hrun & Hlfd').
  { intros key Hkey. pose proof (run_keys_pieces db key Hdup Hkey). lia. }
  eexists _, lfd', _. split; [exact Hrun|].
  intros t g Ht Hg Hfrom Hto key.
  assert (lines (generate_schedules db).2 !! key = Some LfTrue) as Hkey.
  { rewrite generate_schedules_rows by done. simpl.
    rewrite register_lookup, decide_True; [done|].
    apply run_keys_elem. by exists t, g. }
  assert (∀ keys : list string, NoDup keys →
            filter (λ p, pp_pair_id p = key)
              (k ← keys; key_points stoplatlon_dict k)
            = if decide (key ∈ keys) then key_points stoplatlon_dict key
              else []) as Hpoints.
  { clear. intros keys. induction 1 as [|k keys Hk Hnd IH]; [done|].
    rewrite bind_cons, filter_app, IH.
    assert (filter (λ p, pp_pair_id p = key) (key_points stoplatlon_dict k)
            = if decide (k = key) then key_points stoplatlon_dict k else [])
      as ->.
    { unfold key_points. destruct (key_geometries stoplatlon_dict k)
        as [[[[s1 g1] s2] g2]|]; [|by destruct (decide (k = key))].
      rewrite !filter_cons, filter_nil. simpl.
      by destruct (decide (k = key)). }
    destruct (decide (k = key)) as [->|Hne].
    - destruct (decide (key ∈ keys)) as [?|_]; [done|].
      destruct (decide (key ∈ key :: keys)) as [_|[]]; [|left].
      by rewrite app_nil_r.
    - destruct (decide (key ∈ keys)) as [Hin|Hin].
      + destruct (decide (key ∈ k :: keys)) as [_|[]]; [done|by right].
      + destruct (decide (key ∈ k :: keys)) as [Hin'|_]; [|done].
        by apply elem_of_cons in Hin' as [?|?]. }
  rewrite Hpoints by apply NoDup_fst_map_to_list.
  rewrite decide_True.
  2:{ apply list_elem_of_fmap. exists (key, LfTrue).
      by rewrite elem_of_map_to_list. }
  rewrite Hlfd'. unfold key_points.
  unfold key, segment_key. rewrite key_geometries_SourceOIDkey by done.
  fold (segment_key (trip_route_type db t) g). fold key.
  destruct (stoplatlon_dict !! seg_from g) as [g1|]; simpl; [|done].
  destruct (stoplatlon_dict !! seg_to g) as [g2|]; simpl; done.
Qed.

Lemma run_stop_pairs_witness :
  let db := zero_headway_db in
  ∃ points lfd' log',
    generate_stop_pairs Z demo_stoplatlon_dict (λ _, "[...]")
      (lines (generate_schedules db).2) (log (generate_schedules db).2)
    = Ok (points, lfd', log')
    ∧ ∀ t g,
        t ∈ (trips db).*1 → g ∈ trip_segments (stop_times_of db t) →
        comma_free (seg_from g) = true → comma_free (seg_to g) = true →
        let key := segment_key (trip_route_type db t) g in
        match demo_stoplatlon_dict !! seg_from g,
              demo_stoplatlon_dict !! seg_to g with
        | Some from_geom, Some to_geom =>
            lfd' !! key = Some LfTrue
            ∧ filter (λ p, pp_pair_id p = key) points
              = [PairPoint from_geom (seg_from g) key 1;
                 PairPoint to_geom (seg_to g) key 2]
        | _, _ =>
            lfd' !! key = None
            ∧ filter (λ p, pp_pair_id p = key) points = []
        end.
Proof.
  apply (run_stop_pairs zero_headway_db demo_stoplatlon_dict (λ _, "[...]")).
  vm_compute. reflexivity.
Defined.

(** ** From the stop pairs to the update of [schedules] *)

Lemma filter_fmap_list {A B} (f : A → B) (P : B → Prop)
    `{!∀ y, Decision (P y)} (l : list A) :
  filter P (f <$> l) = f <$> filter (λ x, P (f x)) l.
Proof.
  induction l as [|x l IH]; [done|].
  rewrite fmap_cons, !filter_cons, IH. by case_decide.
Qed.

Lemma line_OID_of_rows lines_fc key :
  last (filter (λ row, pair_id row = key)
          (line_row_of <$> filter (λ line, ¬ zero_length line) lines_fc))
  = line_row_of
      <$> last (filter (λ line, ln_pair_id line = key ∧ ¬ zero_length line)
                  lines_fc).
Proof.
  rewrite filter_fmap_list, fmap_last, list_filter_filter. done.
Qed.



(** ** The list of GTFS directories *)

Lemma get_last_is_Some c d :
  is_Some (String.get (String.length d) (String c d)).
Proof.
  revert c. induction d as [|c' d IH]; intros c; simpl; [by eexists|].
  apply IH.
Qed.

(** The two tests of the loop body are [quoted]. *)
Lemma strip_quotes_body_quoted l i d :
  l !! i = Some d → d ≠ EmptyString →
  strip_quotes_body l i
  = if quoted d
    then let! loc := list_index l d in Ok (<[loc := slice_1_m1 d]> l)
    else Ok l.
Proof.
  intros Hd Hne. unfold strip_quotes_body, list_getitem. rewrite Hd. simpl.
  destruct d as [|c d]; [done|].
  destruct (get_last_is_Some c d) as [c' Hlast].
  assert (str_last (String c d) = Ok c') as ->.
  { unfold str_last.
    change (String.length (String c d)) with (S (String.length d)).
    cbv iota beta. unfold str_getitem. by rewrite Hlast. }
  assert (quoted (String c d)
          = bool_decide (c = "'"%char) && bool_decide (c' = "'"%char)) as ->.
  { unfold quoted.
    change (String.length (String c d)) with (S (String.length d)).
    replace (S (String.length d) - 1)%nat with (String.length d) by lia.
    by rewrite Hlast. }
  change (str_getitem (String c d) 0) with (Ok c). simpl.
  destruct (decide (c = "'"%char)) as [Hc|Hc].
  - rewrite (bool_decide_eq_true_2 _ Hc). simpl.
    destruct (decide (c' = "'"%char)) as [Hc'|Hc'].
    + by rewrite (bool_decide_eq_true_2 _ Hc').
    + by rewrite (bool_decide_eq_false_2 _ Hc').
  - by rewrite (bool_decide_eq_false_2 _ Hc).
Qed.

Lemma strip_quotes_body_empty l i :
  l !! i = Some EmptyString → strip_quotes_body l i = Raise IndexError.
Proof.
  intros Hd. unfold strip_quotes_body, list_getitem. by rewrite Hd.
Qed.

(** [index] finds a text at or before any position that holds it. *)
Lemma list_index_le l i d :
  l !! i = Some d → ∃ loc, list_index l d = Ok loc ∧ (loc ≤ i)%nat.
Proof.
  revert i. induction l as [|x l IH]; intros i Hd; [done|]. simpl.
  destruct (decide (x = d)) as [_|Hne]; [exists O; split; [done|lia]|].
  destruct i as [|i]; [by injection Hd|].
  destruct (IH i Hd) as (loc & -> & Hloc). exists (S loc).
  split; [done|lia].
Qed.

Lemma list_index_first l1 d l2 :
  d ∉ l1 → list_index (l1 ++ d :: l2) d = Ok (length l1).
Proof.
  induction l1 as [|x l1 IH]; intros Hd; simpl.
  - by rewrite decide_True.
  - apply not_elem_of_cons in Hd as [Hne Hd].
    rewrite decide_False by done. by rewrite IH.
Qed.

(** The loop from any position: an empty text still to come is an
    [IndexError], and nothing else stops the loop. *)
Lemma strip_quotes_loop_from n :
  ∀ cur i, (i + n)%nat = length cur →
    match for_each strip_quotes_body cur (seq i n) with
    | Ok cur' => (EmptyString ∉ drop i cur) ∧ length cur' = length cur
    | Raise e => e = IndexError ∧ EmptyString ∈ drop i cur
    end.
Proof.
  induction n as [|n IH]; intros cur i Hlen; simpl.
  - rewrite drop_ge by lia. split; [|done]. by intros ?%elem_of_nil.
  - destruct (lookup_lt_is_Some_2 cur i) as [d Hd]; [lia|].
    rewrite (drop_S _ _ _ Hd).
    destruct (decide (d = EmptyString)) as [->|Hne].
    { rewrite strip_quotes_body_empty by done. simpl.
      split; [done|]. left. }
    rewrite (strip_quotes_body_quoted _ _ _ Hd Hne).
    assert (∀ cur', length cur' = length cur →
              drop (S i) cur' = drop (S i) cur →
              match for_each strip_quotes_body cur' (seq (S i) n) with
              | Ok cur'' =>
                  (EmptyString ∉ d :: drop (S i) cur)
                  ∧ length cur'' = length cur
              | Raise e =>
                  e = IndexError ∧ EmptyString ∈ d :: drop (S i) cur
              end) as Hnext.
    { intros cur' Hlen' Hdrop.
      specialize (IH cur' (S i) ltac:(lia)). rewrite Hdrop, Hlen' in IH.
      destruct (for_each strip_quotes_body cur' (seq (S i) n)).
      - destruct IH as [Hin ?]. split; [|done].
        by intros [?|?]%elem_of_cons.
      - destruct IH as [? Hin]. split; [done|]. by right. }
    destruct (quoted d); simpl; [|by apply Hnext].
    destruct (list_index_le cur i d Hd) as (loc & -> & Hloc). simpl.
    apply Hnext; [by rewrite length_insert|].
    apply drop_insert_lt. lia.
Qed.

Lemma prefix_semicolon c s :
  String.prefix ";" (String c s) = Ascii.eqb c ";".
Proof.
  rewrite prefix_cons. destruct (ascii_dec ";" c) as [<-|Hne].
  - by destruct s.
  - symmetry. apply Ascii.eqb_neq. congruence.
Qed.

(** After a semicolon at the end there is one more piece, an empty one. *)
Lemma split_scan_semicolon_end s piece :
  last (split_scan ";" 0 piece (s +:+ ";")) = Some EmptyString.
Proof.
  revert piece. induction s as [|c s IH]; intros piece; [done|].
  rewrite append_cons, split_scan_cons, prefix_semicolon.
  destruct (Ascii.eqb c ";"); [|apply IH].
  rewrite last_cons. simpl. by rewrite IH.
Qed.

(** X16. The only exception of the loop over the list of GTFS directories
    is an [IndexError], raised exactly when one of the pieces between the
    semicolons of the parameter is empty; otherwise the list keeps its
    length. A parameter that ends with a semicolon has an empty last
    piece and so raises. *)
Theorem inGTFSdirList_IndexError (inGTFSdir : string) :
  let pieces := split_scan ";" 0 EmptyString inGTFSdir in
  match fix_inGTFSdirList inGTFSdir with
  | Ok dirs => (EmptyString ∉ pieces) ∧ length dirs = length pieces
  | Raise e => e = IndexError ∧ EmptyString ∈ pieces
  end
  ∧ fix_inGTFSdirList (inGTFSdir +:+ ";") = Raise IndexError.
Proof.
  intros pieces. split.
  - apply (strip_quotes_loop_from (length pieces) pieces 0). lia.
  - pose proof (strip_quotes_loop_from
                  (length (split_scan ";" 0 EmptyString (inGTFSdir +:+ ";")))
                  (split_scan ";" 0 EmptyString (inGTFSdir +:+ ";")) 0
                  eq_refl) as Hloop.
    unfold fix_inGTFSdirList, strip_quotes_loop.
    destruct (for_each strip_quotes_body _ _) as [dirs|e].
    + destruct Hloop as [Hin _]. exfalso. apply Hin. rewrite drop_0.
      apply last_Some_elem_of, split_scan_semicolon_end.
    + by destruct Hloop as [-> _].
Qed.

Lemma semicolon_free_cons c s :
  semicolon_free (String c s) = true →
  Ascii.eqb c ";" = false ∧ semicolon_free s = true.
Proof.
  simpl. intros [Hc ?]%andb_prop. split; [|done].
  by destruct (Ascii.eqb c ";").
Qed.

Lemma split_scan_semicolon_piece a piece rest :
  semicolon_free a = true →
  split_scan ";" 0 piece (a +:+ ";" +:+ rest)
  = (piece +:+ a) :: split_scan ";" 0 EmptyString rest.
Proof.
  revert piece. induction a as [|c a IH]; intros piece Ha.
  - rewrite append_nil_r.
    change (EmptyString +:+ ";" +:+ rest) with (String ";" rest).
    by rewrite split_scan_cons, prefix_semicolon.
  - apply semicolon_free_cons in Ha as [Hc Ha].
    rewrite append_cons, split_scan_cons, prefix_semicolon, Hc.
    rewrite IH by done. by rewrite append_assoc.
Qed.

Lemma split_scan_semicolon_last a piece :
  semicolon_free a = true → split_scan ";" 0 piece a = [piece +:+ a].
Proof.
  revert piece. induction a as [|c a IH]; intros piece Ha.
  - by rewrite append_nil_r.
  - apply semicolon_free_cons in Ha as [Hc Ha].
    rewrite split_scan_cons, prefix_semicolon, Hc.
    rewrite IH by done. by rewrite append_assoc.
Qed.

(** [split] undoes [join] on pieces without a semicolon. *)
Lemma split_join_semicolon pieces :
  pieces ≠ [] → Forall (λ d, semicolon_free d = true) pieces →
  split_scan ";" 0 EmptyString (join_semicolon pieces) = pieces.
Proof.
  intros Hne Hfree. induction Hfree as [|d rest Hd Hrest IH]; [done|].
  destruct rest as [|d' rest].
  - simpl. by rewrite split_scan_semicolon_last.
  - change (join_semicolon (d :: d' :: rest))
      with (d +:+ ";" +:+ join_semicolon (d' :: rest)).
    rewrite split_scan_semicolon_piece by done. by rewrite IH.
Qed.

(** The loop when no text loses its quotes twice: every position is
    replaced by its own text without the quotes. *)
Lemma strip_quotes_loop_plain rest :
  ∀ done,
    Forall (λ d, d ≠ EmptyString
                 ∧ (quoted d = true → quoted (slice_1_m1 d) = false))
      (done ++ rest) →
    for_each strip_quotes_body ((strip_quotes <$> done) ++ rest)
      (seq (length done) (length rest))
    = Ok (strip_quotes <$> (done ++ rest)).
Proof.
  induction rest as [|d rest IH]; intros done Hall; simpl.
  - by rewrite !app_nil_r.
  - assert (((strip_quotes <$> done) ++ d :: rest) !! length done = Some d)
      as Hd.
    { rewrite lookup_app_r by (rewrite length_fmap; lia).
      by rewrite length_fmap, Nat.sub_diag. }
    pose proof Hall as Hall'.
    apply Forall_app in Hall' as [Hdone Hrest].
    apply Forall_cons in Hrest as [[Hne Hd2] _].
    rewrite (strip_quotes_body_quoted _ _ _ Hd Hne).
    assert (for_each strip_quotes_body
              ((strip_quotes <$> done ++ [d]) ++ rest)
              (seq (S (length done)) (length rest))
            = Ok (strip_quotes <$> done ++ d :: rest)) as Hnext.
    { specialize (IH (done ++ [d])).
      rewrite length_app, Nat.add_1_r, <- app_assoc in IH. by apply IH. }
    rewrite fmap_app, <- app_assoc in Hnext. simpl in Hnext.
    unfold strip_quotes at 2 in Hnext.
    destruct (quoted d) eqn:Hq; simpl; [|done].
    rewrite list_index_first.
    2:{ intros (d' & Heq & Hd')%list_elem_of_fmap.
        rewrite Forall_forall in Hdone. destruct (Hdone d' Hd') as [_ Hd'2].
        unfold strip_quotes in Heq. destruct (quoted d') eqn:Hq'.
        - specialize (Hd'2 eq_refl). congruence.
        - congruence. }
    simpl. rewrite length_fmap.
    replace (<[length done:=slice_1_m1 d]> ((strip_quotes <$> done) ++ d :: rest))
      with ((strip_quotes <$> done) ++ slice_1_m1 d :: rest); [done|].
    rewrite insert_app_r_alt by (rewrite length_fmap; lia).
    by rewrite length_fmap, Nat.sub_diag.
Qed.

(** X17. For directories without a semicolon, none of them empty and none
    between two pairs of single quotes, the list made of the parameter
    that joins them with semicolons is the list of the directories, each
    without the single quotes around it if it has them. *)
Theorem inGTFSdirList_strips_quotes (pieces : list string) :
  pieces ≠ [] →
  Forall (λ d, semicolon_free d = true
               ∧ d ≠ EmptyString
               ∧ (quoted d = true → quoted (slice_1_m1 d) = false))
    pieces →
  fix_inGTFSdirList (join_semicolon pieces) = Ok (strip_quotes <$> pieces).
Proof.
  intros Hne Hall. unfold fix_inGTFSdirList, strip_quotes_loop.
  rewrite split_join_semicolon; [|done|].
  - apply (strip_quotes_loop_plain pieces []). simpl.
    eapply Forall_impl; [exact Hall|]. by intros d (_ & ? & ?).
  - eapply Forall_impl; [exact Hall|]. by intros d (? & _).
Qed.

Lemma inGTFSdirList_strips_quotes_witness :
  fix_inGTFSdirList (join_semicolon ["'C:\my data\gtfs'"; "C:\other"])
  = Ok (strip_quotes <$> ["'C:\my data\gtfs'"; "C:\other"]).
Proof.
  apply (inGTFSdirList_strips_quotes ["'C:\my data\gtfs'"; "C:\other"]).
  - discriminate.
  - repeat constructor; try discriminate; vm_compute; congruence.
Defined.

(** A text between two pairs of quotes loses both, and a later text equal
    to what it became in between keeps its quotes: [index] finds the
    earlier position. *)
Example inGTFSdirList_quoted_twice :
  fix_inGTFSdirList "''a'';'a'" = Ok ["a"; "'a'"].
Proof. reflexivity. Qed.

(** ** The stops feature class *)

Lemma substring_0_length n s :
  String.length (String.substring 0 n s) = Nat.min n (String.length s).
Proof.
  revert n. induction s as [|c s IH]; intros [|n]; simpl; try done.
  by rewrite IH.
Qed.

Lemma substring_0_prefix n s :
  String.prefix (String.substring 0 n s) s = true.
Proof.
  revert n. induction s as [|c s IH]; intros [|n]; simpl; try done.
  destruct (ascii_dec c c); [apply IH|done].
Qed.

Section StopsProps.

Context {geometry coord column : Type}.
Context (point_geometry : coord → coord → option geometry).
Context (unicode_column : column → string).
Context (used_parent_stations : list string).

#[local] Abbreviation body := (stops_body point_geometry unicode_column used_parent_stations).
#[local] Abbreviation loop := (stops_loop point_geometry unicode_column used_parent_stations).
#[local] Abbreviation feature_of := (stop_feature_of point_geometry unicode_column).
#[local] Abbreviation passes := (stop_passes point_geometry used_parent_stations).
#[local] Abbreviation is_skipped := (skipped used_parent_stations).

(** The body of the loop, by the kind of the stop. *)
Lemma stops_body_cases s (stop : stop_record coord column) :
  body s stop
  = match desc_text stop with
    | None => inl DescTypeError
    | Some _ =>
        if is_skipped stop then inr s
        else match feature_of stop with
             | Some row =>
                 inr (s.1 ++ [row], <[fc_stop_id row := fc_shape row]> s.2)
             | None => inl PointError
             end
    end.
Proof.
  unfold stops_body, desc_text, stop_feature_of, skipped, desc_text.
  destruct (in_stop_desc stop) as [[z|desc]|]; try done. simpl.
  destruct (location_type_is (in_location_type stop) 1
            && negb (bool_decide (in_stop_id stop ∈ used_parent_stations)));
    [done|]. simpl.
  destruct (location_type_is (in_location_type stop) 2
            && negb (parent_station_in used_parent_stations
                       (in_parent_station stop))); [done|].
  by destruct (point_geometry (in_stop_lat stop) (in_stop_lon stop)).
Qed.

Lemma stop_passes_cases (stop : stop_record coord column) :
  passes stop = true
  ↔ is_Some (desc_text stop)
    ∧ (is_skipped stop = false → is_Some (feature_of stop)).
Proof.
  unfold stop_passes, stop_feature_of.
  destruct (desc_text stop) as [desc|]; simpl.
  2:{ split; [done|]. by intros [[? ?] _]. }
  destruct (is_skipped stop); simpl.
  { split; [|done]. intros _. split; [by eexists|done]. }
  rewrite bool_decide_eq_true.
  destruct (point_geometry (in_stop_lat stop) (in_stop_lon stop)); simpl.
  - split; [|by eexists]. intros _. split; by eexists.
  - split; [by intros [? ?]|]. intros [_ Hf]. by destruct (Hf eq_refl).
Qed.

(** The loop over stops at none of which it stops. *)
Lemma stops_loop_passes (stops : list (stop_record coord column)) :
  ∀ s,
    Forall (λ stop, passes stop = true) stops →
    loop s stops
    = inr (s.1 ++ omap feature_of
                    (filter (λ stop, is_skipped stop = false) stops),
           foldl (λ d row, <[fc_stop_id row := fc_shape row]> d) s.2
             (omap feature_of
                (filter (λ stop, is_skipped stop = false) stops))).
Proof.
  induction stops as [|stop stops IH]; intros [rows dict] Hall; simpl.
  { by rewrite app_nil_r. }
  apply Forall_cons in Hall as [Hstop Hall].
  apply stop_passes_cases in Hstop as [[desc Hdesc] Hrow].
  rewrite stops_body_cases, Hdesc, filter_cons.
  destruct (is_skipped stop) eqn:Hskip.
  - rewrite decide_False by done. by rewrite IH.
  - rewrite decide_True by done. destruct (Hrow eq_refl) as [row Hfeat].
    rewrite Hfeat, IH by done. simpl. rewrite Hfeat. simpl.
    by rewrite <- app_assoc.
Qed.

(** The loop stops at the first stop at which it can. *)
Lemma stops_loop_stops (stops : list (stop_record coord column)) :
  ∀ s,
    Exists (λ stop, passes stop = false) stops →
    ∃ e, loop s stops = inl e.
Proof.
  induction stops as [|stop stops IH]; intros s Hex; simpl.
  { by apply Exists_nil in Hex. }
  rewrite stops_body_cases.
  destruct (passes stop) eqn:Hpass.
  - apply Exists_cons in Hex as [Hex|Hex]; [congruence|].
    apply stop_passes_cases in Hpass as [[desc ->] Hrow].
    destruct (is_skipped stop); [by apply IH|].
    destruct (Hrow eq_refl) as [row ->]. by apply IH.
  - unfold stop_passes, stop_feature_of in *.
    destruct (desc_text stop) as [desc|]; simpl in *; [|by eexists].
    apply orb_false_iff in Hpass as [-> Hpoint].
    apply bool_decide_eq_false in Hpoint.
    destruct (point_geometry (in_stop_lat stop) (in_stop_lon stop));
      simpl; [|by eexists].
    exfalso. apply Hpoint. by eexists.
Qed.

Lemma stops_dict_lookup (rows : list (stop_feature geometry column))
    (dict : gmap string geometry) stop_id :
  foldl (λ d row, <[fc_stop_id row := fc_shape row]> d) dict rows !! stop_id
  = match last (filter (λ row, fc_stop_id row = stop_id) rows) with
    | Some row => Some (fc_shape row)
    | None => dict !! stop_id
    end.
Proof.
  induction rows as [|row rows IH] using rev_ind; [done|].
  rewrite foldl_app, last_filter_snoc. simpl. case_decide as Hid.
  - by rewrite <- Hid, lookup_insert_eq.
  - by rewrite lookup_insert_ne.
Qed.

Lemma omap_Forall2 {A B} (f : A → option B) (l : list A) :
  Forall (λ x, is_Some (f x)) l →
  Forall2 (λ x y, f x = Some y) l (omap f l).
Proof.
  induction 1 as [|x l [y Hy] _ IH]; simpl; [constructor|].
  rewrite Hy. by constructor.
Qed.

End StopsProps.

(** X18. When every stop has a text as its [stop_desc] and the point of
    every stop that is not passed over can be made, the loop over the
    stops raises nothing. It writes, in the order of the table, one row
    for each stop except the parent stations no stop uses and the station
    entrances without a used parent station; the [stop_desc] of a row is
    the start of the description, of at most 500 characters; and
    [stoplatlon_dict] holds, for a stop identifier, the point of the last
    row written with it, and nothing for an identifier of no row. *)
Theorem stops_rows_and_dict {geometry coord column : Type}
    (point_geometry : coord → coord → option geometry)
    (unicode_column : column → string)
    (used_parent_stations : list string)
    (stops : list (stop_record coord column)) :
  Forall (λ stop, stop_passes point_geometry used_parent_stations stop = true)
    stops →
  ∃ rows stoplatlon_dict,
    generate_stops point_geometry unicode_column used_parent_stations stops
    = inr (rows, stoplatlon_dict)
    ∧ Forall2 (λ stop row,
                 stop_feature_of point_geometry unicode_column stop = Some row)
        (filter (λ stop, skipped used_parent_stations stop = false) stops)
        rows
    ∧ Forall2 (λ stop row,
                 ∃ desc, in_stop_desc stop = Some (SText desc)
                         ∧ String.prefix (fc_stop_desc row) desc = true
                         ∧ String.length (fc_stop_desc row)
                           = Nat.min 500 (String.length desc))
        (filter (λ stop, skipped used_parent_stations stop = false) stops)
        rows
    ∧ ∀ stop_id,
        stoplatlon_dict !! stop_id
        = fc_shape <$> last (filter (λ row, fc_stop_id row = stop_id) rows).
Proof.
  intros Hall. unfold generate_stops.
  rewrite stops_loop_passes by done. simpl.
  set (kept := filter (λ stop, skipped used_parent_stations stop = false)
                 stops).
  assert (Forall2 (λ stop row,
                     stop_feature_of point_geometry unicode_column stop
                     = Some row)
            kept (omap (stop_feature_of point_geometry unicode_column) kept))
    as Hrows.
  { apply omap_Forall2, Forall_forall.
    intros stop [Hskip Hin]%list_elem_of_filter.
    rewrite Forall_forall in Hall.
    pose proof (proj1 (stop_passes_cases point_geometry unicode_column
                         used_parent_stations stop) (Hall stop Hin))
      as [_ Hrow].
    by apply Hrow. }
  eexists _, _. split; [done|]. split; [done|]. split.
  - eapply Forall2_impl; [exact Hrows|]. intros stop row Hrow.
    unfold stop_feature_of, desc_text in Hrow.
    destruct (in_stop_desc stop) as [[z|desc]|]; try done. simpl in Hrow.
    destruct (point_geometry (in_stop_lat stop) (in_stop_lon stop));
      [|done].
    injection Hrow as <-. exists desc. simpl.
    split; [done|]. split; [apply substring_0_prefix|].
    apply substring_0_length.
  - intros stop_id. rewrite stops_dict_lookup, lookup_empty.
    by destruct (last _).
Qed.

Lemma stops_rows_and_dict_witness :
  ∃ rows stoplatlon_dict,
    generate_stops demo_point demo_unicode ["S"] demo_stops
    = inr (rows, stoplatlon_dict)
    ∧ Forall2 (λ stop row,
                 stop_feature_of demo_point demo_unicode stop = Some row)
        (filter (λ stop, skipped ["S"] stop = false) demo_stops) rows
    ∧ Forall2 (λ stop row,
                 ∃ desc, in_stop_desc stop = Some (SText desc)
                         ∧ String.prefix (fc_stop_desc row) desc = true
                         ∧ String.length (fc_stop_desc row)
                           = Nat.min 500 (String.length desc))
        (filter (λ stop, skipped ["S"] stop = false) demo_stops) rows
    ∧ ∀ stop_id,
        stoplatlon_dict !! stop_id
        = fc_shape <$> last (filter (λ row, fc_stop_id row = stop_id) rows).
Proof.
  apply (stops_rows_and_dict demo_point demo_unicode ["S"] demo_stops).
  repeat constructor.
Defined.

(** X19. The loop over the stops finishes exactly when every stop has a
    text as its [stop_desc] and the point of every stop that is not passed
    over can be made: the description is cut before a stop is passed
    over, so a stop without a text there stops the loop even when it is a
    parent station that no stop uses. *)
Theorem stops_loop_finishes {geometry coord column : Type}
    (point_geometry : coord → coord → option geometry)
    (unicode_column : column → string)
    (used_parent_stations : list string)
    (stops : list (stop_record coord column)) :
  (∃ s, generate_stops point_geometry unicode_column used_parent_stations
          stops = inr s)
  ↔ Forall (λ stop,
              (∃ desc, in_stop_desc stop = Some (SText desc))
              ∧ (skipped used_parent_stations stop = false →
                 is_Some (point_geometry (in_stop_lat stop)
                            (in_stop_lon stop))))
      stops.
Proof.
  assert (∀ stop : stop_record coord column,
            stop_passes point_geometry used_parent_stations stop = true
            ↔ (∃ desc, in_stop_desc stop = Some (SText desc))
              ∧ (skipped used_parent_stations stop = false →
                 is_Some (point_geometry (in_stop_lat stop)
                            (in_stop_lon stop)))) as Hpass.
  { intros stop. unfold stop_passes, desc_text.
    destruct (in_stop_desc stop) as [[z|desc]|].
    - split; [done|]. by intros [[? ?] _].
    - rewrite orb_true_iff, bool_decide_eq_true. split.
      + intros Hor. split; [by eexists|]. intros Hskip.
        destruct Hor as [Hor|Hor]; [congruence|done].
      + intros [_ Hpoint].
        destruct (skipped used_parent_stations stop); [by left|].
        right. by apply Hpoint.
    - split; [done|]. by intros [[? ?] _]. }
  unfold generate_stops. split.
  - intros [s Hs]. apply Forall_forall. intros stop Hin. apply Hpass.
    destruct (stop_passes point_geometry used_parent_stations stop)
      eqn:Hstop; [done|].
    destruct (stops_loop_stops point_geometry unicode_column
                used_parent_stations stops ([], ∅)) as [e He].
    + apply Exists_exists. by exists stop.
    + congruence.
  - intros Hall. eexists. apply stops_loop_passes.
    eapply Forall_impl; [exact Hall|]. intros stop Hstop. by apply Hpass.
Qed.

(** The stops that [stoplatlon_dict] holds are those of the rows. *)
Lemma stoplatlon_dict_stops {geometry coord column : Type}
    (point_geometry : coord → coord → option geometry)
    (unicode_column : column → string)
    (used_parent_stations : list string)
    (stops : list (stop_record coord column)) (stop_id : string) :
  Forall (λ stop, stop_passes point_geometry used_parent_stations stop = true)
    stops →
  is_Some
    (foldl (λ d row, <[fc_stop_id row := fc_shape row]> d)
       (∅ : gmap string geometry)
       (omap (stop_feature_of point_geometry unicode_column)
          (filter (λ stop, skipped used_parent_stations stop = false) stops))
     !! stop_id)
  ↔ Exists (λ stop, in_stop_id stop = stop_id
                    ∧ skipped used_parent_stations stop = false) stops.
Proof.
  intros Hall. rewrite stops_dict_lookup, lookup_empty, Exists_exists.
  assert (∀ stop row,
            stop_feature_of point_geometry unicode_column stop = Some row →
            fc_stop_id row = in_stop_id stop) as Hid.
  { intros stop row. unfold stop_feature_of.
    destruct (desc_text stop); [|done]. simpl.
    destruct (point_geometry (in_stop_lat stop) (in_stop_lon stop));
      [|done].
    simpl. by intros [= <-]. }
  split.
  - destruct (last _) as [row|] eqn:Hlast; [|by intros [? ?]]. intros _.
    apply last_Some_elem_of, list_elem_of_filter in Hlast as [Hrow Hin].
    apply list_elem_of_omap in Hin as (stop & Hin & Hfeat).
    apply list_elem_of_filter in Hin as [Hskip Hin].
    exists stop. split; [done|]. split; [|done].
    by rewrite <- (Hid _ _ Hfeat).
  - intros (stop & Hin & <- & Hskip).
    rewrite Forall_forall in Hall.
    pose proof (proj1 (stop_passes_cases point_geometry unicode_column
                         used_parent_stations stop) (Hall stop Hin))
      as [_ Hrow].
    destruct (Hrow Hskip) as [row Hfeat].
    destruct (last _) as [row'|] eqn:Hlast; [by eexists|].
    apply last_None in Hlast. exfalso.
    assert (row ∈ filter (λ row, fc_stop_id row = in_stop_id stop)
                    (omap (stop_feature_of point_geometry unicode_column)
                       (filter (λ stop, skipped used_parent_stations stop
                                        = false) stops))) as Hrows.
    { apply list_elem_of_filter. split; [by apply Hid|].
      apply list_elem_of_omap. exists stop. split; [|done].
      by apply list_elem_of_filter. }
    rewrite Hlast in Hrows. by apply elem_of_nil in Hrows.
Qed.

(** X20. From the stops table to the stop pairs: when the loop over the
    stops finishes and the keys of [linefeature_dict] have at least two
    pieces, the key of two stops without commas stays in the dictionary
    when each of the two has a row in the stops table that is not passed
    over, and is removed otherwise. So the segments to and from a parent
    station that no stop uses are removed, although the station is in
    the stops table. *)
Theorem stop_pairs_of_written_stops {geometry coord column : Type}
    (point_geometry : coord → coord → option geometry)
    (unicode_column : column → string)
    (used_parent_stations : list string)
    (unicode_list : list string → string)
    (stops : list (stop_record coord column))
    (lfd : gmap string lfval) (log : list message) :
  Forall (λ stop, stop_passes point_geometry used_parent_stations stop = true)
    stops →
  Forall (λ key, (2 ≤ length (split_key key))%nat) (map_to_list lfd).*1 →
  ∃ rows stoplatlon_dict points lfd' log',
    generate_stops point_geometry unicode_column used_parent_stations stops
    = inr (rows, stoplatlon_dict)
    ∧ generate_stop_pairs geometry stoplatlon_dict unicode_list lfd log
      = Ok (points, lfd', log')
    ∧ ∀ a b m,
        comma_free a = true → comma_free b = true →
        let written stop_id :=
          Exists (λ stop, in_stop_id stop = stop_id
                          ∧ skipped used_parent_stations stop = false)
            stops in
        (written a ∧ written b →
         lfd' !! SourceOIDkey_of a b m = lfd !! SourceOIDkey_of a b m)
        ∧ (¬ (written a ∧ written b) →
           lfd' !! SourceOIDkey_of a b m = None).
Proof.
  intros Hall Hlen. unfold generate_stops.
  rewrite stops_loop_passes by done. simpl.
  set (dict := foldl (λ d row, <[fc_stop_id row := fc_shape row]> d)
                 (∅ : gmap string geometry) _).
  pose proof (proj1 (keys_Forall _ lfd) Hlen) as Hlen'. simpl in Hlen'.
  destruct (generate_stop_pairs_Ok dict unicode_list lfd log Hlen')
    as (lfd' & Hrun & Hlfd').
  eexists _, dict, _, lfd', _. split; [done|]. split; [exact Hrun|].
  intros a b m Ha Hb. rewrite Hlfd'.
  rewrite key_geometries_SourceOIDkey by done.
  pose proof (stoplatlon_dict_stops point_geometry unicode_column
                used_parent_stations stops a Hall) as Hwa.
  pose proof (stoplatlon_dict_stops point_geometry unicode_column
                used_parent_stations stops b Hall) as Hwb.
  fold dict in Hwa, Hwb.
  split.
  - intros [[ga Hga]%Hwa [gb Hgb]%Hwb]. by rewrite Hga, Hgb.
  - intros Hnot. destruct (dict !! a) as [ga|] eqn:Hga; [|done]. simpl.
    destruct (dict !! b) as [gb|] eqn:Hgb; [|done]. exfalso.
    apply Hnot. split; [apply Hwa|apply Hwb]; by eexists.
Qed.

Lemma stop_pairs_of_written_stops_witness :
  ∃ rows stoplatlon_dict points lfd' log',
    generate_stops demo_point demo_unicode ["S"] demo_stops
    = inr (rows, stoplatlon_dict)
    ∧ generate_stop_pairs (Z * Z) stoplatlon_dict (λ _, "[...]")
        demo_linefeature_dict []
      = Ok (points, lfd', log')
    ∧ ∀ a b m,
        comma_free a = true → comma_free b = true →
        let written stop_id :=
          Exists (λ stop, in_stop_id stop = stop_id
                          ∧ skipped ["S"] stop = false)
            demo_stops in
        (written a ∧ written b →
         lfd' !! SourceOIDkey_of a b m
         = demo_linefeature_dict !! SourceOIDkey_of a b m)
        ∧ (¬ (written a ∧ written b) →
           lfd' !! SourceOIDkey_of a b m = None).
Proof.
  apply (stop_pairs_of_written_stops demo_point demo_unicode ["S"]
           (λ _, "[...]") demo_stops demo_linefeature_dict []).
  - repeat constructor.
  - vm_compute. repeat constructor.
Defined.
